(** * SimplE scoring and LiteralE combinations: a shallow embedding

    The development follows two source files:

    - [src/poem/models/unimodal/simple.py]: the SimplE model, its four
      embedding tables and its three scoring modes;
    - [src/pykeen/models/multimodal/combinations.py]: the combinations of
      the LiteralE models ([DistMultCombination], [ComplexCombination],
      [ComplExLiteralCombination]).

    Both are written against a tensor framework.  Module [Torch] models the
    part of that framework the two files call: scalars, tensors as nested
    lists, broadcasting, the random generator, and the layers
    [nn.Embedding], [nn.Linear], [nn.Dropout] and [nn.Tanh]. *)

From Stdlib Require Import List ZArith Lia Bool Arith QArith Qabs.
Import ListNotations.
Close Scope Q_scope.

Set Implicit Arguments.

(* ================================================================== *)
(** * The framework *)
(* ================================================================== *)

Module Torch.

(** ** Scalars

    The element type of a float tensor, with the operations the two source
    files reach through the framework.  Nothing is assumed about them: the
    results below hold for every interpretation, rounding included.
    [fsum] is the reduction of a vector ([torch.sum] along one axis), whose
    order of accumulation belongs to the framework. *)

Class Scalar (F : Type) : Type := {
  fzero : F;
  fone : F;
  fhalf : F;
  fadd : F -> F -> F;
  fsub : F -> F -> F;
  fmul : F -> F -> F;
  fdiv : F -> F -> F;
  ftanh : F -> F;
  feqb : F -> F -> bool;
  fltb : F -> F -> bool;
  fsum : list F -> F
}.

(** The three facts about comparisons of the constants [0.0] and [1.0]
    that the default dropout probability relies on. *)

Class ScalarCmp (F : Type) `{Scalar F} : Prop := {
  feqb_zero : feqb fzero fzero = true;
  fltb_zero : fltb fzero fzero = false;
  fltb_one_zero : fltb fone fzero = false
}.

Arguments ScalarCmp F {_}.

(** ** Errors and results *)

Inductive exn : Type :=
| IndexError      (* an index outside a tensor's axis *)
| RuntimeError    (* shapes that do not broadcast or do not match *)
| TypeError       (* calling an attribute that holds None *)
| AttributeError  (* reading an attribute of None *)
| ValueError.     (* an argument outside its domain *)

Inductive result (A : Type) : Type :=
| Ok (a : A)
| Raise (e : exn).

Arguments Ok {A} a.
Arguments Raise {A} e.

Definition rbind {A B} (r : result A) (k : A -> result B) : result B :=
  match r with
  | Ok a => k a
  | Raise e => Raise e
  end.

Definition is_ok {A} (r : result A) : bool :=
  match r with Ok _ => true | Raise _ => false end.

Fixpoint mapR {A B} (f : A -> result B) (l : list A) : result (list B) :=
  match l with
  | [] => Ok []
  | x :: l' => rbind (f x) (fun y => rbind (mapR f l') (fun ys => Ok (y :: ys)))
  end.

Fixpoint zipR {A B C} (f : A -> B -> result C) (xs : list A) (ys : list B)
  : result (list C) :=
  match xs, ys with
  | x :: xs', y :: ys' =>
      rbind (f x y) (fun z => rbind (zipR f xs' ys') (fun zs => Ok (z :: zs)))
  | _, _ => Ok []
  end.

(** Pure zip, used on the specification side. *)
Fixpoint map2 {A B C} (f : A -> B -> C) (xs : list A) (ys : list B) : list C :=
  match xs, ys with
  | x :: xs', y :: ys' => f x y :: map2 f xs' ys'
  | _, _ => []
  end.

(** ** State-and-error monad

    A method runs on a state [S] (the object and the random generator) and
    either returns or raises; the state it leaves behind is kept in both
    cases, as in Python. *)

Definition M (S A : Type) : Type := S -> result A * S.

Definition ret {S A} (a : A) : M S A := fun s => (Ok a, s).

Definition bind {S A B} (m : M S A) (k : A -> M S B) : M S B :=
  fun s =>
    match m s with
    | (Ok a, s') => k a s'
    | (Raise e, s') => (Raise e, s')
    end.

Definition lift {S A} (r : result A) : M S A := fun s => (r, s).

Definition get {S} : M S S := fun s => (Ok s, s).

Declare Scope torch_scope.
Delimit Scope torch_scope with torch.

Notation "x <- c1 ;; c2" := (bind c1 (fun x => c2))
  (at level 100, c1 at next level, right associativity) : torch_scope.
Notation "c1 ;;; c2" := (bind c1 (fun _ => c2))
  (at level 100, right associativity) : torch_scope.

(** The same computation run two times in a row. *)
Definition twice {S A} (m : M S A) : M S (A * A) :=
  bind m (fun x => bind m (fun y => ret (x, y))).

Fixpoint mapS {S A B} (f : A -> M S B) (l : list A) : M S (list B) :=
  match l with
  | [] => ret []
  | x :: l' =>
      bind (f x) (fun y => bind (mapS f l') (fun ys => ret (y :: ys)))
  end.

(** ** Tensors

    A float tensor of rank 1, 2 or 3 is a list nested as deep.  An index
    tensor of rank 2 is the list of its rows together with the size of its
    second axis, which is what column selection checks ([t[:, k]] raises
    when [k] is not below it); entries are 64-bit integers, of which only
    the comparison with the table size matters here, so they are kept in
    [Z]. *)

Section Tensors.
Context {F : Type} `{Scalar F}.

Definition Vec : Type := list F.
Definition Mat : Type := list (list F).
Definition Cube : Type := list (list (list F)).

Record LongTensor : Type := {
  size1 : nat;
  rows : list (list Z)
}.

(** [t[:, k]] *)
Definition select (k : nat) (t : LongTensor) : result (list Z) :=
  if k <? size1 t then Ok (map (fun r => nth k r 0%Z) (rows t))
  else Raise IndexError.

(** Broadcasting of two axes of one rank: sizes agree, or one of them is 1
    and its only element is paired with every element of the other. *)
Definition broadcast {A B C} (f : A -> B -> result C)
  (xs : list A) (ys : list B) : result (list C) :=
  if length xs =? length ys then zipR f xs ys
  else
    match xs, ys with
    | [x], _ => mapR (f x) ys
    | _, [y] => mapR (fun x => f x y) xs
    | _, _ => Raise RuntimeError
    end.

Definition mul1 (a b : Vec) : result Vec :=
  broadcast (fun x y => Ok (fmul x y)) a b.
Definition mul2 (a b : Mat) : result Mat := broadcast mul1 a b.
Definition mul3 (a b : Cube) : result Cube := broadcast mul2 a b.

Definition add1 (a b : Vec) : result Vec :=
  broadcast (fun x y => Ok (fadd x y)) a b.
Definition add2 (a b : Mat) : result Mat := broadcast add1 a b.

(** [c * t] for a Python float [c] *)
Definition scale1 (c : F) (a : Vec) : Vec := map (fmul c) a.
Definition scale2 (c : F) (a : Mat) : Mat := map (scale1 c) a.

(** [torch.sum(t, dim=-1)] *)
Definition sum2 (a : Mat) : Vec := map fsum a.
Definition sum3 (a : Cube) : Mat := map sum2 a.

(** [t[:, None, :]] and [t[None, :, :]] *)
Definition unsqueeze1 (a : Mat) : Cube := map (fun r => [r]) a.
Definition unsqueeze0 (a : Mat) : Cube := [a].

Definition shape2 (n d : nat) (a : Mat) : Prop :=
  length a = n /\ Forall (fun r => length r = d) a.

(** [a[i, j]] *)
Definition entry (a : Mat) (i j : nat) : option F :=
  match nth_error a i with
  | Some r => nth_error r j
  | None => None
  end.

(** ** The random generator

    [sample i] is the [i]-th value the generator hands to an initialiser,
    [keep q i] the [i]-th Bernoulli draw with success probability [q]; the
    cursor counts the draws made so far. *)

Record Generator : Type := {
  sample : nat -> F;
  keep : F -> nat -> bool;
  cursor : nat
}.

Definition advance (k : nat) (g : Generator) : Generator :=
  {| sample := sample g; keep := keep g; cursor := cursor g + k |}.

(** A fresh [n]-by-[d] matrix, filled row by row. *)
Definition draw_matrix (n d : nat) : M Generator Mat :=
  fun g =>
    (Ok (map (fun i => map (sample g) (seq (cursor g + i * d) d)) (seq 0 n)),
     advance (n * d) g).

Definition draw_vector (d : nat) : M Generator Vec :=
  fun g => (Ok (map (sample g) (seq (cursor g) d)), advance d g).

Definition draw_mask (q : F) (d : nat) : M Generator (list bool) :=
  fun g => (Ok (map (keep g q) (seq (cursor g) d)), advance d g).

(** ** nn.Embedding

    A table of [num_embeddings] rows.  Calling it on an index tensor picks
    the rows; an index below 0 or not below the number of rows raises. *)

Record Embedding : Type := {
  num_embeddings : nat;
  embedding_dim : nat;
  weight : Mat
}.

(** The table [nn.Embedding(n, d)] builds when the generator is in state
    [g]: its entries are the next [n * d] samples. *)
Definition drawn (g : Generator) (n d : nat) : Embedding :=
  {| num_embeddings := n;
     embedding_dim := d;
     weight := map (fun i => map (sample g) (seq (cursor g + i * d) d))
                   (seq 0 n) |}.

Definition nn_Embedding (n d : nat) : M Generator Embedding :=
  (w <- draw_matrix n d ;;
   ret {| num_embeddings := n; embedding_dim := d; weight := w |})%torch.

Definition lookup_row (w : Mat) (i : Z) : result Vec :=
  if (0 <=? i)%Z && (i <? Z.of_nat (length w))%Z then
    match nth_error w (Z.to_nat i) with
    | Some r => Ok r
    | None => Raise IndexError
    end
  else Raise IndexError.

(** [e(indices)] for a rank-1 index tensor *)
Definition embedding_forward (e : Embedding) (idx : list Z) : result Mat :=
  mapR (lookup_row (weight e)) idx.

Definition embedding_ok (n d : nat) (e : Embedding) : Prop :=
  num_embeddings e = n /\ embedding_dim e = d /\ shape2 n d (weight e).

(** ** Layers of the combinations

    [nn.Linear(i, o)] holds an [o]-by-[i] weight and a bias of [o] entries,
    both drawn at construction.  [nn.Dropout(p)] refuses a [p] outside
    [0, 1]; a new module is in training mode.  In the forward pass the
    dropout returns its input as it is when [p] is 0 or the module is not
    training, zeroes it when [p] is 1, and otherwise multiplies every entry
    by a Bernoulli(1 - p) draw divided by [1 - p]. *)

Inductive Layer : Type :=
| Linear (in_features out_features : nat) (W : Mat) (b : Vec)
| Dropout (p : F) (training : bool)
| Tanh.

Definition nn_Linear (i o : nat) : M Generator Layer :=
  (W <- draw_matrix o i ;;
   b <- draw_vector o ;;
   ret (Linear i o W b))%torch.

Definition valid_probability (p : F) : bool :=
  negb (fltb p fzero || fltb fone p).

Definition nn_Dropout (p : F) : M Generator Layer :=
  if valid_probability p then ret (Dropout p true) else lift (Raise ValueError).

(** [x @ W.T + b] on one row *)
Definition affine (W : Mat) (b : Vec) (x : Vec) : Vec :=
  map2 (fun w c => fadd (fsum (map2 fmul x w)) c) W b.

Definition linear_row (i : nat) (W : Mat) (b : Vec) (x : Vec) : result Vec :=
  if length x =? i then Ok (affine W b x) else Raise RuntimeError.

Definition apply_mask (p : F) (x : Vec) (mask : list bool) : Vec :=
  map2 (fun v (k : bool) =>
          fmul v (fdiv (if k then fone else fzero) (fsub fone p))) x mask.

Definition dropout_row (p : F) (x : Vec) : M Generator Vec :=
  (mask <- draw_mask (fsub fone p) (length x) ;;
   ret (apply_mask p x mask))%torch.

Definition dropout_forward (p : F) (training : bool) (x : Mat)
  : M Generator Mat :=
  if valid_probability p then
    if feqb p fzero || negb training then ret x
    else if feqb p fone then ret (map (map (fun v => fmul v fzero)) x)
    else mapS (dropout_row p) x
  else lift (Raise ValueError).

Definition layer_forward (l : Layer) (x : Mat) : M Generator Mat :=
  match l with
  | Linear i _ W b => lift (mapR (linear_row i W b) x)
  | Dropout p training => dropout_forward p training x
  | Tanh => ret (map (map ftanh) x)
  end.

(** [nn.Sequential]: the layers in the order given, each fed the output of
    the one before. *)
Definition Sequential : Type := list Layer.

Fixpoint sequential_forward (ls : Sequential) (x : Mat) : M Generator Mat :=
  match ls with
  | [] => ret x
  | l :: ls' => bind (layer_forward l x) (sequential_forward ls')
  end.

(** [t[..., :k]], [t[..., k:]] and [torch.cat([a, b], dim=-1)] *)
Definition narrow_to (k : nat) (x : Mat) : Mat := map (firstn k) x.
Definition narrow_from (k : nat) (x : Mat) : Mat := map (skipn k) x.

Definition cat_last (a b : Mat) : result Mat :=
  if length a =? length b then Ok (map2 (@app F) a b)
  else Raise RuntimeError.

End Tensors.

Arguments Vec F : clear implicits.
Arguments Mat F : clear implicits.
Arguments Cube F : clear implicits.
Arguments Generator F : clear implicits.
Arguments Embedding F : clear implicits.
Arguments Layer F : clear implicits.
Arguments Sequential F : clear implicits.

End Torch.

Import Torch.
Local Open Scope torch_scope.

(* ================================================================== *)
(** * poem/models/unimodal/simple.py *)
(* ================================================================== *)

Module SimplE.

Section Model.
Context {F : Type} `{Scalar F}.

(** What the model reads from its [TriplesFactory]. *)
Record TriplesFactory : Type := {
  tf_num_entities : nat;
  tf_num_relations : nat
}.

(** The attributes of a SimplE object that the file touches.  An embedding
    attribute that is unset or holds [None] is [None] here. *)
Record Self : Type := {
  num_entities : nat;
  num_relations : nat;
  embedding_dim : nat;
  entity_embeddings : option (Embedding F);
  tail_entity_embeddings : option (Embedding F);
  relation_embeddings : option (Embedding F);
  inverse_relation_embeddings : option (Embedding F)
}.

(** A method runs on the object together with the framework's generator. *)
Record World : Type := {
  self : Self;
  generator : Generator F
}.

Definition set_entity_embeddings (v : option (Embedding F)) (s : Self) : Self :=
  {| num_entities := num_entities s;
     num_relations := num_relations s;
     embedding_dim := embedding_dim s;
     entity_embeddings := v;
     tail_entity_embeddings := tail_entity_embeddings s;
     relation_embeddings := relation_embeddings s;
     inverse_relation_embeddings := inverse_relation_embeddings s |}.

Definition set_tail_entity_embeddings (v : option (Embedding F)) (s : Self) : Self :=
  {| num_entities := num_entities s;
     num_relations := num_relations s;
     embedding_dim := embedding_dim s;
     entity_embeddings := entity_embeddings s;
     tail_entity_embeddings := v;
     relation_embeddings := relation_embeddings s;
     inverse_relation_embeddings := inverse_relation_embeddings s |}.

Definition set_relation_embeddings (v : option (Embedding F)) (s : Self) : Self :=
  {| num_entities := num_entities s;
     num_relations := num_relations s;
     embedding_dim := embedding_dim s;
     entity_embeddings := entity_embeddings s;
     tail_entity_embeddings := tail_entity_embeddings s;
     relation_embeddings := v;
     inverse_relation_embeddings := inverse_relation_embeddings s |}.

Definition set_inverse_relation_embeddings (v : option (Embedding F)) (s : Self)
  : Self :=
  {| num_entities := num_entities s;
     num_relations := num_relations s;
     embedding_dim := embedding_dim s;
     entity_embeddings := entity_embeddings s;
     tail_entity_embeddings := tail_entity_embeddings s;
     relation_embeddings := relation_embeddings s;
     inverse_relation_embeddings := v |}.

(** [self.attr = v] *)
Definition setattr (upd : Self -> Self) : M World unit :=
  fun w => (Ok tt, {| self := upd (self w); generator := generator w |}).

(** [nn.Embedding(n, d)] called from a method: draws from the generator. *)
Definition new_embedding (n d : nat) : M World (Embedding F) :=
  fun w =>
    let '(r, g) := nn_Embedding n d (generator w) in
    (r, {| self := self w; generator := g |}).

(** [self.attr(indices)] *)
Definition call (attr : Self -> option (Embedding F)) (idx : list Z)
  : M World (Mat F) :=
  w <- get ;;
  match attr (self w) with
  | Some e => lift (embedding_forward e idx)
  | None => lift (Raise TypeError)
  end.

(** [self.attr.weight] *)
Definition weight_of (attr : Self -> option (Embedding F)) : M World (Mat F) :=
  w <- get ;;
  match attr (self w) with
  | Some e => ret (weight e)
  | None => lift (Raise AttributeError)
  end.

(** Modelled from the spec: [poem.models.base.BaseModule] is not under
    src/.  Its constructor is taken to record the sizes of the triples
    factory and the embedding dimension and to leave every embedding table
    unset; the spec's data model has entity embeddings as dense vectors
    indexed by entity id, owned by the model instance. *)
Definition BaseModule_init (triples_factory : TriplesFactory) (dim : nat)
  : Self :=
  {| num_entities := tf_num_entities triples_factory;
     num_relations := tf_num_relations triples_factory;
     embedding_dim := dim;
     entity_embeddings := None;
     tail_entity_embeddings := None;
     relation_embeddings := None;
     inverse_relation_embeddings := None |}.

(** Modelled from the spec: [BaseModule._init_embeddings] is not under
    src/.  It creates the entity embedding table, one vector of the
    embedding dimension per entity ("embeddings are reinitialized on
    construction"). *)
Definition BaseModule_init_embeddings : M World unit :=
  w <- get ;;
  e <- new_embedding (num_entities (self w)) (embedding_dim (self w)) ;;
  setattr (set_entity_embeddings (Some e)).

(** [SimplE._init_embeddings] (simple.py, lines 53-57): the base class
    first, then the tail-entity, relation and inverse-relation tables. *)
Definition _init_embeddings : M World unit :=
  BaseModule_init_embeddings ;;;
  w <- get ;;
  e1 <- new_embedding (num_entities (self w)) (embedding_dim (self w)) ;;
  setattr (set_tail_entity_embeddings (Some e1)) ;;;
  e2 <- new_embedding (num_relations (self w)) (embedding_dim (self w)) ;;
  setattr (set_relation_embeddings (Some e2)) ;;;
  e3 <- new_embedding (num_relations (self w)) (embedding_dim (self w)) ;;
  setattr (set_inverse_relation_embeddings (Some e3)).

(** [SimplE.__init__] (simple.py, lines 34-51): the object starts as the
    base constructor leaves it, then [relation_embeddings] is set to [None]
    and [_init_embeddings] runs.  The arguments [criterion],
    [preferred_device] and [random_seed] are handed to the base constructor
    as they come and are not read in this file; [g] is the state of the
    generator when the tables are drawn. *)
Definition __init__ (triples_factory : TriplesFactory) (dim : nat)
  : M (Generator F) Self :=
  fun g =>
    let w0 := {| self := BaseModule_init triples_factory dim;
                 generator := g |} in
    let '(r, w) :=
      (setattr (set_relation_embeddings None) ;;; _init_embeddings) w0 in
    (match r with Ok _ => Ok (self w) | Raise e => Raise e end, generator w).

(** Modelled from the spec: [poem.utils.slice_triples] is not under src/.
    A batch of triples has one row (head_id, relation_id, tail_id) per
    triple; the helper returns the three columns.  The spec fixes neither
    the rank of the three tensors nor what the helper does on a batch of
    fewer than three columns: here each column is a rank-1 tensor selected
    by its index, so a narrower batch raises.  On batches of three columns
    the ids handed to the lookups, and so the scores and their number, do
    not depend on that choice. *)
Definition slice_triples (batch : LongTensor)
  : result (list Z * list Z * list Z) :=
  rbind (select 0 batch) (fun h =>
  rbind (select 1 batch) (fun r =>
  rbind (select 2 batch) (fun t => Ok (h, r, t)))).

(** [SimplE.forward_owa] (simple.py, lines 59-84) *)
Definition forward_owa (batch : LongTensor) : M World (Vec F) :=
  hrt <- lift (slice_triples batch) ;;
  let '(h_ind, r_ind, t_ind) := hrt in
  hh <- call entity_embeddings h_ind ;;
  ht <- call entity_embeddings t_ind ;;
  th <- call tail_entity_embeddings h_ind ;;
  tt <- call tail_entity_embeddings t_ind ;;
  r <- call relation_embeddings r_ind ;;
  r_inv <- call inverse_relation_embeddings r_ind ;;
  hh_r <- lift (mul2 hh r) ;;
  hh_r_tt <- lift (mul2 hh_r tt) ;;
  let score := sum2 hh_r_tt in
  ht_r <- lift (mul2 ht r_inv) ;;
  ht_r_th <- lift (mul2 ht_r th) ;;
  let inverse_score := sum2 ht_r_th in
  total <- lift (add1 score inverse_score) ;;
  ret (scale1 fhalf total).

(** [SimplE.forward_cwa] (simple.py, lines 86-108): the batch holds
    (head, relation) pairs; every entity is scored as tail. *)
Definition forward_cwa (batch : LongTensor) : M World (Mat F) :=
  h_ind <- lift (select 0 batch) ;;
  r_ind <- lift (select 1 batch) ;;
  hh <- call entity_embeddings h_ind ;;
  th <- call tail_entity_embeddings h_ind ;;
  r <- call relation_embeddings r_ind ;;
  r_inv <- call inverse_relation_embeddings r_ind ;;
  ht <- weight_of entity_embeddings ;;
  tt <- weight_of tail_entity_embeddings ;;
  hh_r <- lift (mul3 (unsqueeze1 hh) (unsqueeze1 r)) ;;
  hh_r_tt <- lift (mul3 hh_r (unsqueeze0 tt)) ;;
  let score := sum3 hh_r_tt in
  ht_r <- lift (mul3 (unsqueeze0 ht) (unsqueeze1 r_inv)) ;;
  ht_r_th <- lift (mul3 ht_r (unsqueeze1 th)) ;;
  let inverse_score := sum3 ht_r_th in
  total <- lift (add2 score inverse_score) ;;
  ret (scale2 fhalf total).

(** [SimplE.forward_inverse_cwa] (simple.py, lines 110-135): the batch
    holds (relation, tail) pairs; every entity is scored as head. *)
Definition forward_inverse_cwa (batch : LongTensor) : M World (Mat F) :=
  r_ind <- lift (select 0 batch) ;;
  t_ind <- lift (select 1 batch) ;;
  hh <- weight_of entity_embeddings ;;
  ht <- call entity_embeddings t_ind ;;
  th <- weight_of tail_entity_embeddings ;;
  tt <- call tail_entity_embeddings t_ind ;;
  r <- call relation_embeddings r_ind ;;
  r_inv <- call inverse_relation_embeddings r_ind ;;
  hh_r <- lift (mul3 (unsqueeze0 hh) (unsqueeze1 r)) ;;
  hh_r_tt <- lift (mul3 hh_r (unsqueeze1 tt)) ;;
  let score := sum3 hh_r_tt in
  ht_r <- lift (mul3 (unsqueeze1 ht) (unsqueeze1 r_inv)) ;;
  ht_r_th <- lift (mul3 ht_r (unsqueeze0 th)) ;;
  let inverse_score := sum3 ht_r_th in
  total <- lift (add2 score inverse_score) ;;
  ret (scale2 fhalf total).

(** ** The specification's words *)

(** Row [i] of a table. *)
Definition vector (e : option (Embedding F)) (i : Z) : Vec F :=
  match e with
  | Some e => nth (Z.to_nat i) (weight e) []
  | None => []
  end.

(** Coordinate [d] of a vector. *)
Definition coordinate (v : Vec F) (d : nat) : F := nth d v fzero.

(** The CP score: the sum over the coordinates [d] of [a_d * b_d * c_d]. *)
Definition cp_score (dim : nat) (a b c : Vec F) : F :=
  fsum (map (fun d => fmul (fmul (coordinate a d) (coordinate b d))
                           (coordinate c d))
            (seq 0 dim)).

(** score(h, r, t) = 0.5 * (CP-score + inverse-CP-score) *)
Definition triple_score (s : Self) (h r t : Z) : F :=
  fmul fhalf
    (fadd
       (cp_score (embedding_dim s)
                 (vector (entity_embeddings s) h)
                 (vector (relation_embeddings s) r)
                 (vector (tail_entity_embeddings s) t))
       (cp_score (embedding_dim s)
                 (vector (entity_embeddings s) t)
                 (vector (inverse_relation_embeddings s) r)
                 (vector (tail_entity_embeddings s) h))).

(** The ids of all entities, in table order. *)
Definition all_entities (s : Self) : list Z :=
  map Z.of_nat (seq 0 (num_entities s)).

Definition in_range (n : nat) (i : Z) : Prop := (0 <= i < Z.of_nat n)%Z.

Definition in_rangeb (n : nat) (i : Z) : bool :=
  (0 <=? i)%Z && (i <? Z.of_nat n)%Z.

(** The model holds its four tables, each of the shape its sizes give. *)
Definition initialised (s : Self) : Prop :=
  exists E T R Ri,
    entity_embeddings s = Some E /\
    tail_entity_embeddings s = Some T /\
    relation_embeddings s = Some R /\
    inverse_relation_embeddings s = Some Ri /\
    embedding_ok (num_entities s) (embedding_dim s) E /\
    embedding_ok (num_entities s) (embedding_dim s) T /\
    embedding_ok (num_relations s) (embedding_dim s) R /\
    embedding_ok (num_relations s) (embedding_dim s) Ri.

(** Column [k] of every row is an entity id, respectively a relation id. *)
Definition entity_column (s : Self) (k : nat) (batch : LongTensor) : Prop :=
  Forall (fun row => in_range (num_entities s) (nth k row 0%Z)) (rows batch).

Definition relation_column (s : Self) (k : nat) (batch : LongTensor) : Prop :=
  Forall (fun row => in_range (num_relations s) (nth k row 0%Z)) (rows batch).

Definition entity_columnb (s : Self) (k : nat) (batch : LongTensor) : bool :=
  forallb (fun row => in_rangeb (num_entities s) (nth k row 0%Z)) (rows batch).

Definition relation_columnb (s : Self) (k : nat) (batch : LongTensor) : bool :=
  forallb (fun row => in_rangeb (num_relations s) (nth k row 0%Z)) (rows batch).

(** A batch of the documented shape whose ids are in range, for each of
    the three scoring modes. *)
Definition triples_batch (s : Self) (batch : LongTensor) : Prop :=
  size1 batch = 3 /\ entity_column s 0 batch /\
  relation_column s 1 batch /\ entity_column s 2 batch.

Definition head_relation_batch (s : Self) (batch : LongTensor) : Prop :=
  size1 batch = 2 /\ entity_column s 0 batch /\ relation_column s 1 batch.

Definition relation_tail_batch (s : Self) (batch : LongTensor) : Prop :=
  size1 batch = 2 /\ relation_column s 0 batch /\ entity_column s 1 batch.

(** The batch that holds the one triple [(h, r, t)]. *)
Definition single_triple (h r t : Z) : LongTensor :=
  {| size1 := 3; rows := [[h; r; t]] |}.

(** The four learned tables of a model. *)
Definition tables (s : Self)
  : option (Embedding F) * option (Embedding F) *
    option (Embedding F) * option (Embedding F) :=
  (entity_embeddings s, tail_entity_embeddings s,
   relation_embeddings s, inverse_relation_embeddings s).

(** A computation that leaves the object and the generator as they were
    and whose result does not depend on the generator. *)
Definition reads_only {A} (m : M World A) : Prop :=
  forall w,
    snd (m w) = w /\
    forall g, fst (m {| self := self w; generator := g |}) = fst (m w).

End Model.

Arguments Self F : clear implicits.
Arguments World F : clear implicits.

End SimplE.

(* ================================================================== *)
(** * pykeen/models/multimodal/combinations.py *)
(* ================================================================== *)

Module Combinations.

Section Model.
Context {F : Type} `{Scalar F}.

(** The forward computation of an [nn.Module] on a float tensor.  The
    last axis is the one the combinations work along; the axes before it
    are kept as one axis of rows. *)
Definition Forward : Type := Mat F -> M (Generator F) (Mat F).

(** [input_dropout: float = 0.0] *)
Definition default_input_dropout : F := fzero.

(** [DistMultCombination.__init__] (combinations.py, lines 16-27): an
    [nn.Sequential] of the linear layer and the dropout. *)
Definition DistMultCombination
  (embedding_dim num_of_literals : nat) (input_dropout : F)
  : M (Generator F) (Sequential F) :=
  linear <- nn_Linear (embedding_dim + num_of_literals) embedding_dim ;;
  dropout <- nn_Dropout input_dropout ;;
  ret [linear; dropout].

(** [ComplexCombination] (combinations.py, lines 30-54).  The attribute
    [embedding_dim] holds twice the constructor's argument. *)
Record ComplexCombination : Type := {
  real : Forward;
  imag : Forward;
  embedding_dim : nat
}.

Definition ComplexCombination_init (real imag : Forward) (embedding_dim : nat)
  : ComplexCombination :=
  {| real := real; imag := imag; embedding_dim := 2 * embedding_dim |}.

(** Modelled from the spec: [pykeen.utils.split_complex] is not under
    src/.  It splits a complex tensor, stored with its real coordinates
    first, into its real and imaginary halves along the last axis. *)
Definition split_complex (x : Mat F) : Mat F * Mat F :=
  (map (fun r => firstn (length r / 2) r) x,
   map (fun r => skipn (length r / 2) r) x).

(** Modelled from the spec: [pykeen.utils.combine_complex] is not under
    src/.  It recombines a real and an imaginary part into one complex
    tensor, the inverse of the split. *)
Definition combine_complex (x_re x_im : Mat F) : result (Mat F) :=
  cat_last x_re x_im.

(** [ComplexCombination.forward] (combinations.py, lines 45-54) *)
Definition forward (self : ComplexCombination) (x : Mat F)
  : M (Generator F) (Mat F) :=
  let '(x, literal) :=
    (narrow_to (embedding_dim self) x, narrow_from (embedding_dim self) x) in
  let '(x_re, x_im) := split_complex x in
  re_in <- lift (cat_last x_re literal) ;;
  x_re <- real self re_in ;;
  im_in <- lift (cat_last x_im literal) ;;
  x_im <- imag self im_in ;;
  lift (combine_complex x_re x_im).

(** [ComplExLiteralCombination.__init__] (combinations.py, lines 57-76) *)
Definition ComplExLiteralCombination
  (embedding_dim num_of_literals : nat) (input_dropout : F)
  : M (Generator F) ComplexCombination :=
  real_dropout <- nn_Dropout input_dropout ;;
  real_linear <- nn_Linear (embedding_dim + num_of_literals) embedding_dim ;;
  let real := sequential_forward [real_dropout; real_linear; Tanh] in
  imag_dropout <- nn_Dropout input_dropout ;;
  imag_linear <- nn_Linear (embedding_dim + num_of_literals) embedding_dim ;;
  let imag := sequential_forward [imag_dropout; imag_linear; Tanh] in
  ret (ComplexCombination_init real imag embedding_dim).

(** ** The specification's words *)

(** The real half, the imaginary half and the literals of a row whose
    complex embedding has [2 * d] coordinates. *)
Definition real_half (d : nat) (row : Vec F) : Vec F := firstn d row.
Definition imag_half (d : nat) (row : Vec F) : Vec F := firstn d (skipn d row).
Definition literals (d : nat) (row : Vec F) : Vec F := skipn (2 * d) row.

(** [tanh(W [x, literal] + b)] *)
Definition tanh_affine (W : Mat F) (b : Vec F) (x : Vec F) : Vec F :=
  map ftanh (affine W b x).

Definition last_dim (k : nat) (x : Mat F) : Prop :=
  Forall (fun r => length r = k) x.

End Model.

Arguments ComplexCombination F : clear implicits.
Arguments Forward F : clear implicits.

End Combinations.

(* ================================================================== *)
(** * An exact interpretation of the scalars *)
(* ================================================================== *)

(** Rational arithmetic, with a rational sigmoid in the place of [tanh];
    the examples below run on it. *)

Module Rational.

#[export] Instance Q_scalar : Scalar Q := {
  fzero := 0%Q;
  fone := 1%Q;
  fhalf := (1 # 2)%Q;
  fadd := Qplus;
  fsub := Qminus;
  fmul := Qmult;
  fdiv := Qdiv;
  ftanh := fun x => Qdiv x (Qplus 1 (Qabs x));
  feqb := Qeq_bool;
  fltb := fun a b => negb (Qle_bool b a);
  fsum := fun l => fold_left Qplus l 0%Q
}.

(** A generator whose [i]-th sample is [i / 7] and which keeps the draws
    of even index. *)
Definition gen (c : nat) : Generator Q :=
  {| sample := fun i => (Z.of_nat i # 7)%Q;
     keep := fun _ i => Nat.even i;
     cursor := c |}.

Definition table (l : list (list Z)) : Embedding Q :=
  {| num_embeddings := length l;
     embedding_dim := 2;
     weight := map (map inject_Z) l |}.

(** Three entities and two relations in dimension 2. *)
Definition toy : SimplE.Self Q :=
  {| SimplE.num_entities := 3;
     SimplE.num_relations := 2;
     SimplE.embedding_dim := 2;
     SimplE.entity_embeddings := Some (table [[1; 2]; [3; 4]; [5; 6]]%Z);
     SimplE.tail_entity_embeddings := Some (table [[1; 0]; [0; 1]; [2; 2]]%Z);
     SimplE.relation_embeddings := Some (table [[1; 1]; [2; 3]]%Z);
     SimplE.inverse_relation_embeddings := Some (table [[0; 1]; [1; 2]]%Z) |}.

Definition toy_world : SimplE.World Q :=
  {| SimplE.self := toy; SimplE.generator := gen 0 |}.

Definition triples : LongTensor :=
  {| size1 := 3; rows := [[0; 1; 2]; [2; 0; 1]]%Z |}.

Definition pairs : LongTensor :=
  {| size1 := 2; rows := [[0; 1]; [1; 0]]%Z |}.

End Rational.

(* ================================================================== *)
(** * Batches and models derived from others *)
(* ================================================================== *)

(** Operations on batches and models that relate one scoring call to
    another. *)

Module Batches.

(** [torch.cat([a, b], dim=0)] for two index tensors whose second axes have
    the same size. *)
Definition stack (a b : LongTensor) : LongTensor :=
  {| size1 := size1 a; rows := rows a ++ rows b |}.

(** [t[:, k:]] *)
Definition columns_from (k : nat) (t : LongTensor) : LongTensor :=
  {| size1 := size1 t - k; rows := map (skipn k) (rows t) |}.

(** Every row (h, r, t) turned into (t, r, h). *)
Definition reverse_triples (t : LongTensor) : LongTensor :=
  {| size1 := 3;
     rows := map (fun row => [nth 2 row 0%Z; nth 1 row 0%Z; nth 0 row 0%Z])
                 (rows t) |}.

(** The model with its relation and inverse-relation tables exchanged. *)
Definition swap_relations {F : Type} (s : SimplE.Self F) : SimplE.Self F :=
  {| SimplE.num_entities := SimplE.num_entities s;
     SimplE.num_relations := SimplE.num_relations s;
     SimplE.embedding_dim := SimplE.embedding_dim s;
     SimplE.entity_embeddings := SimplE.entity_embeddings s;
     SimplE.tail_entity_embeddings := SimplE.tail_entity_embeddings s;
     SimplE.relation_embeddings := SimplE.inverse_relation_embeddings s;
     SimplE.inverse_relation_embeddings := SimplE.relation_embeddings s |}.

(** Two float tensors of rank 2 with the same shape. *)
Definition same_shape {F : Type} (x y : Mat F) : Prop :=
  Forall2 (fun r r' => length r = length r') x y.

End Batches.

(** Further concrete values on the rational scalars. *)

Module Samples.
Import Rational.

(** Two entities and one relation. *)
Definition small_factory : SimplE.TriplesFactory :=
  {| SimplE.tf_num_entities := 2; SimplE.tf_num_relations := 1 |}.

(** The model [SimplE(small_factory, embedding_dim=1)] built when the
    generator is [gen 0]. *)
Definition small_model : SimplE.Self Q :=
  {| SimplE.num_entities := 2;
     SimplE.num_relations := 1;
     SimplE.embedding_dim := 1;
     SimplE.entity_embeddings :=
       Some {| num_embeddings := 2; embedding_dim := 1;
               weight := [[0 # 7]; [1 # 7]]%Q |};
     SimplE.tail_entity_embeddings :=
       Some {| num_embeddings := 2; embedding_dim := 1;
               weight := [[2 # 7]; [3 # 7]]%Q |};
     SimplE.relation_embeddings :=
       Some {| num_embeddings := 1; embedding_dim := 1;
               weight := [[4 # 7]]%Q |};
     SimplE.inverse_relation_embeddings :=
       Some {| num_embeddings := 1; embedding_dim := 1;
               weight := [[5 # 7]]%Q |} |}.

(** [DistMultCombination(2, 1, 0.5)] built when the generator is [gen 0]. *)
Definition distmult : Sequential Q :=
  [Linear 3 2 [[0 # 7; 1 # 7; 2 # 7]; [3 # 7; 4 # 7; 5 # 7]]%Q
          [6 # 7; 7 # 7]%Q;
   Dropout (1 # 2)%Q true].

(** [ComplExLiteralCombination(1, 1, p)] built when the generator is
    [gen 0]. *)
Definition complex_literal (p : Q) : Combinations.ComplexCombination Q :=
  Combinations.ComplexCombination_init
    (sequential_forward
       [Dropout p true; Linear 2 1 [[0 # 7; 1 # 7]]%Q [2 # 7]%Q; Tanh])
    (sequential_forward
       [Dropout p true; Linear 2 1 [[3 # 7; 4 # 7]]%Q [5 # 7]%Q; Tanh])
    1.

End Samples.

(* ================================================================== *)
(** * Facts about the framework *)
(* ================================================================== *)

Module TorchFacts.

Section Lists.
Variables A B C D : Type.

Lemma mapR_pure (f : A -> result B) (g : A -> B) (l : list A) :
  (forall x, In x l -> f x = Ok (g x)) -> mapR f l = Ok (map g l).
Proof.
  induction l as [|x l IH]; intros Hf; simpl; [reflexivity|].
  rewrite (Hf x (or_introl eq_refl)); simpl.
  rewrite IH; [reflexivity|].
  intros y Hy. apply Hf. right. exact Hy.
Qed.

Lemma mapR_map (f : B -> result C) (g : A -> B) (l : list A) :
  mapR f (map g l) = mapR (fun x => f (g x)) l.
Proof.
  induction l as [|x l IH]; simpl; [reflexivity|].
  rewrite IH. reflexivity.
Qed.

Lemma zipR_map (h : B -> C -> result D) (f : A -> B) (g : A -> C)
      (k : A -> D) (l : list A) :
  (forall x, In x l -> h (f x) (g x) = Ok (k x)) ->
  zipR h (map f l) (map g l) = Ok (map k l).
Proof.
  induction l as [|x l IH]; intros Hh; simpl; [reflexivity|].
  rewrite (Hh x (or_introl eq_refl)); simpl.
  rewrite IH; [reflexivity|].
  intros y Hy. apply Hh. right. exact Hy.
Qed.

Lemma zipR_pure (g : A -> B -> C) (xs : list A) (ys : list B) :
  zipR (fun x y => Ok (g x y)) xs ys = Ok (map2 g xs ys).
Proof.
  revert ys. induction xs as [|x xs IH]; intros [|y ys]; simpl; try reflexivity.
  rewrite IH. reflexivity.
Qed.

Lemma length_map2 (g : A -> B -> C) (xs : list A) (ys : list B) :
  length (map2 g xs ys) = Nat.min (length xs) (length ys).
Proof.
  revert ys. induction xs as [|x xs IH]; intros [|y ys]; simpl; try reflexivity.
  rewrite IH. reflexivity.
Qed.

Lemma map2_map (h : B -> C -> D) (f : A -> B) (g : A -> C) (l : list A) :
  map2 h (map f l) (map g l) = map (fun x => h (f x) (g x)) l.
Proof.
  induction l as [|x l IH]; simpl; [reflexivity|].
  rewrite IH. reflexivity.
Qed.

End Lists.

Section Broadcast.
Context {F : Type} `{Scalar F}.

Lemma broadcast_same {A B C} (f : A -> B -> result C) (xs : list A) (ys : list B) :
  length xs = length ys -> broadcast f xs ys = zipR f xs ys.
Proof.
  intros Hlen. unfold broadcast.
  rewrite Hlen, Nat.eqb_refl. reflexivity.
Qed.

Lemma broadcast_map {A B C D} (h : B -> C -> result D) (f : A -> B) (g : A -> C)
      (k : A -> D) (l : list A) :
  (forall x, In x l -> h (f x) (g x) = Ok (k x)) ->
  broadcast h (map f l) (map g l) = Ok (map k l).
Proof.
  intros Hh. rewrite broadcast_same.
  - apply zipR_map. exact Hh.
  - rewrite !length_map. reflexivity.
Qed.

Lemma broadcast_left {A B C} (f : A -> B -> result C) (x : A) (ys : list B) :
  broadcast f [x] ys = mapR (f x) ys.
Proof.
  unfold broadcast.
  destruct ys as [|y [|y' ys]]; reflexivity.
Qed.

Lemma broadcast_right {A B C} (f : A -> B -> result C) (xs : list A) (y : B) :
  broadcast f xs [y] = mapR (fun x => f x y) xs.
Proof.
  unfold broadcast.
  destruct xs as [|x [|x' xs]]; reflexivity.
Qed.

End Broadcast.

Section Products.
Context {F : Type} `{Scalar F}.

Lemma mul1_same (a b : Vec F) :
  length a = length b -> mul1 a b = Ok (map2 fmul a b).
Proof.
  intros Hlen. unfold mul1.
  rewrite broadcast_same by exact Hlen.
  apply zipR_pure.
Qed.

Lemma add1_map {I} (a b : I -> F) (l : list I) :
  add1 (map a l) (map b l) = Ok (map (fun x => fadd (a x) (b x)) l).
Proof.
  unfold add1. apply broadcast_map. reflexivity.
Qed.

Lemma add2_grid {I J} (a b : I -> J -> F) (l : list I) (es : list J) :
  add2 (map (fun x => map (a x) es) l) (map (fun x => map (b x) es) l) =
  Ok (map (fun x => map (fun t => fadd (a x t) (b x t)) es) l).
Proof.
  unfold add2. apply broadcast_map.
  intros x _. apply add1_map.
Qed.

Lemma mul2_map {I} (f g : I -> Vec F) (l : list I) :
  (forall x, In x l -> length (f x) = length (g x)) ->
  mul2 (map f l) (map g l) = Ok (map (fun x => map2 fmul (f x) (g x)) l).
Proof.
  intros Hlen. unfold mul2. apply broadcast_map.
  intros x Hx. apply mul1_same. apply Hlen. exact Hx.
Qed.

Lemma mul3_rows_rows {I} (f g : I -> Vec F) (l : list I) :
  (forall x, In x l -> length (f x) = length (g x)) ->
  mul3 (unsqueeze1 (map f l)) (unsqueeze1 (map g l)) =
  Ok (unsqueeze1 (map (fun x => map2 fmul (f x) (g x)) l)).
Proof.
  intros Hlen. unfold mul3, unsqueeze1. rewrite !map_map.
  apply broadcast_map. intros x Hx.
  unfold mul2. rewrite broadcast_same by reflexivity. simpl.
  rewrite mul1_same by (apply Hlen; exact Hx). reflexivity.
Qed.

Lemma mul3_rows_table {I J} (f : I -> Vec F) (v : J -> Vec F)
      (l : list I) (es : list J) :
  (forall x t, In x l -> In t es -> length (f x) = length (v t)) ->
  mul3 (unsqueeze1 (map f l)) (unsqueeze0 (map v es)) =
  Ok (map (fun x => map (fun t => map2 fmul (f x) (v t)) es) l).
Proof.
  intros Hlen. unfold mul3, unsqueeze1, unsqueeze0.
  rewrite broadcast_right, !map_map, mapR_map.
  apply mapR_pure. intros x Hx.
  unfold mul2. rewrite broadcast_left, mapR_map.
  apply mapR_pure. intros t Ht.
  apply mul1_same. apply Hlen; assumption.
Qed.

Lemma mul3_table_rows {I J} (v : J -> Vec F) (g : I -> Vec F)
      (l : list I) (es : list J) :
  (forall x t, In x l -> In t es -> length (v t) = length (g x)) ->
  mul3 (unsqueeze0 (map v es)) (unsqueeze1 (map g l)) =
  Ok (map (fun x => map (fun t => map2 fmul (v t) (g x)) es) l).
Proof.
  intros Hlen. unfold mul3, unsqueeze1, unsqueeze0.
  rewrite broadcast_left, !map_map, mapR_map.
  apply mapR_pure. intros x Hx.
  unfold mul2. rewrite broadcast_right, mapR_map.
  apply mapR_pure. intros t Ht.
  apply mul1_same. apply Hlen; assumption.
Qed.

Lemma mul3_grid_rows {I J} (p : I -> J -> Vec F) (g : I -> Vec F)
      (l : list I) (es : list J) :
  (forall x t, In x l -> In t es -> length (p x t) = length (g x)) ->
  mul3 (map (fun x => map (p x) es) l) (unsqueeze1 (map g l)) =
  Ok (map (fun x => map (fun t => map2 fmul (p x t) (g x)) es) l).
Proof.
  intros Hlen. unfold mul3, unsqueeze1. rewrite map_map.
  apply broadcast_map. intros x Hx.
  unfold mul2. rewrite broadcast_right, mapR_map.
  apply mapR_pure. intros t Ht.
  apply mul1_same. apply Hlen; assumption.
Qed.

Lemma sum3_grid {I J} (p : I -> J -> Vec F) (l : list I) (es : list J) :
  sum3 (map (fun x => map (p x) es) l) =
  map (fun x => map (fun t => fsum (p x t)) es) l.
Proof.
  unfold sum3, sum2. rewrite map_map.
  apply map_ext. intros x. apply map_map.
Qed.

Lemma scale2_grid {I J} (c : F) (a : I -> J -> F) (l : list I) (es : list J) :
  scale2 c (map (fun x => map (a x) es) l) =
  map (fun x => map (fun t => fmul c (a x t)) es) l.
Proof.
  unfold scale2, scale1. rewrite map_map.
  apply map_ext. intros x. apply map_map.
Qed.

End Products.

End TorchFacts.

(* ================================================================== *)
(** * Facts about SimplE *)
(* ================================================================== *)

Module SimplEFacts.
Import TorchFacts SimplE.

Section Lookups.
Context {F : Type} `{Scalar F}.

Lemma in_rangeb_spec (n : nat) (i : Z) :
  in_rangeb n i = true <-> in_range n i.
Proof.
  unfold in_rangeb, in_range.
  rewrite andb_true_iff, Z.leb_le, Z.ltb_lt. reflexivity.
Qed.

Lemma lookup_row_spec (w : Mat F) (i : Z) :
  lookup_row w i =
  if in_rangeb (length w) i then Ok (nth (Z.to_nat i) w []) else Raise IndexError.
Proof.
  unfold lookup_row, in_rangeb.
  destruct ((0 <=? i)%Z && (i <? Z.of_nat (length w))%Z) eqn:Hb;
    [|reflexivity].
  apply andb_true_iff in Hb. destruct Hb as [H0 H1].
  apply Z.leb_le in H0. apply Z.ltb_lt in H1.
  destruct (nth_error w (Z.to_nat i)) as [r|] eqn:Hr.
  - rewrite (nth_error_nth _ _ [] Hr). reflexivity.
  - apply nth_error_None in Hr. lia.
Qed.

Lemma embedding_forward_spec {I} (e : Embedding F) (col : I -> Z) (l : list I) :
  embedding_forward e (map col l) =
  if forallb (fun x => in_rangeb (length (weight e)) (col x)) l
  then Ok (map (fun x => vector (Some e) (col x)) l)
  else Raise IndexError.
Proof.
  unfold embedding_forward.
  induction l as [|x l IH]; simpl; [reflexivity|].
  rewrite lookup_row_spec.
  destruct (in_rangeb (length (weight e)) (col x)); simpl; [|reflexivity].
  rewrite IH.
  destruct (forallb _ l); reflexivity.
Qed.

Lemma call_run {I} (attr : Self F -> option (Embedding F)) (e : Embedding F)
      (n : nat) (col : I -> Z) (l : list I) (w : World F) :
  attr (self w) = Some e ->
  length (weight e) = n ->
  call attr (map col l) w =
  (if forallb (fun x => in_rangeb n (col x)) l
   then Ok (map (fun x => vector (attr (self w)) (col x)) l)
   else Raise IndexError, w).
Proof.
  intros He Hn. unfold call, bind, get, lift.
  rewrite He, embedding_forward_spec, Hn. reflexivity.
Qed.

Lemma table_rows (w : Mat F) :
  w = map (fun t => nth (Z.to_nat t) w []) (map Z.of_nat (seq 0 (length w))).
Proof.
  rewrite map_map.
  apply nth_ext with (d := []) (d' := nth (Z.to_nat (Z.of_nat 0)) w []).
  - rewrite length_map, length_seq. reflexivity.
  - intros i Hi.
    rewrite (map_nth (fun x => nth (Z.to_nat (Z.of_nat x)) w []) (seq 0 (length w)) 0%nat i).
    rewrite seq_nth by exact Hi. simpl. rewrite Nat2Z.id. reflexivity.
Qed.

Lemma weight_of_run (attr : Self F -> option (Embedding F)) (e : Embedding F)
      (w : World F) :
  attr (self w) = Some e ->
  length (weight e) = num_entities (self w) ->
  weight_of attr w =
  (Ok (map (vector (attr (self w))) (all_entities (self w))), w).
Proof.
  intros He Hn. unfold weight_of, bind, get, ret, all_entities.
  rewrite He, <- Hn.
  rewrite (table_rows (weight e)) at 1. reflexivity.
Qed.

Lemma vector_length (n d : nat) (e : Embedding F) (i : Z) :
  embedding_ok n d e -> in_range n i -> length (vector (Some e) i) = d.
Proof.
  intros (_ & _ & Hlen & Hrows) [H0 H1]. simpl.
  rewrite Forall_forall in Hrows. apply Hrows.
  apply nth_In. lia.
Qed.

Lemma cp_coordinates (n : nat) (a b c : Vec F) :
  length a = n -> length b = n -> length c = n ->
  map2 fmul (map2 fmul a b) c =
  map (fun d => fmul (fmul (coordinate a d) (coordinate b d)) (coordinate c d))
      (seq 0 n).
Proof.
  revert a b c.
  induction n as [|n IH]; intros [|x a] [|y b] [|z c] Ha Hb Hc;
    try discriminate; [reflexivity|].
  simpl in Ha, Hb, Hc.
  cbn [map2 seq map]. rewrite <- seq_shift, map_map.
  f_equal. apply IH; lia.
Qed.

Lemma all_entities_in_range (s : Self F) (t : Z) :
  In t (all_entities s) <-> in_range (num_entities s) t.
Proof.
  unfold all_entities, in_range. rewrite in_map_iff. split.
  - intros (i & <- & Hi). apply in_seq in Hi. lia.
  - intros Ht. exists (Z.to_nat t). split; [lia|]. apply in_seq. lia.
Qed.

Lemma column_in_range (n k : nat) (l : list (list Z)) (row : list Z) :
  forallb (fun r => in_rangeb n (nth k r 0%Z)) l = true ->
  In row l -> in_range n (nth k row 0%Z).
Proof.
  intros Hall Hrow. rewrite forallb_forall in Hall.
  apply in_rangeb_spec. apply Hall. exact Hrow.
Qed.

Lemma entity_columnb_spec (s : Self F) (k : nat) (batch : LongTensor) :
  entity_columnb s k batch = true <-> entity_column s k batch.
Proof.
  unfold entity_columnb, entity_column.
  rewrite forallb_forall, Forall_forall.
  split; intros Hall r Hr; apply in_rangeb_spec, Hall, Hr.
Qed.

Lemma relation_columnb_spec (s : Self F) (k : nat) (batch : LongTensor) :
  relation_columnb s k batch = true <-> relation_column s k batch.
Proof.
  unfold relation_columnb, relation_column.
  rewrite forallb_forall, Forall_forall.
  split; intros Hall r Hr; apply in_rangeb_spec, Hall, Hr.
Qed.

End Lookups.

Section Runs.
Context {F : Type} `{Scalar F}.

Lemma column_vector_length (attr : option (Embedding F)) (e : Embedding F)
      (n d k : nat) (l : list (list Z)) (row : list Z) :
  attr = Some e -> embedding_ok n d e ->
  forallb (fun r => in_rangeb n (nth k r 0%Z)) l = true ->
  In row l -> length (vector attr (nth k row 0%Z)) = d.
Proof.
  intros -> Hok Hall Hrow.
  apply (vector_length Hok). eapply column_in_range; eassumption.
Qed.

Lemma entity_vector_length (s : Self F) (attr : option (Embedding F))
      (e : Embedding F) (d : nat) (t : Z) :
  attr = Some e -> embedding_ok (num_entities s) d e ->
  In t (all_entities s) -> length (vector attr t) = d.
Proof.
  intros -> Hok Ht.
  apply (vector_length Hok). apply all_entities_in_range. exact Ht.
Qed.

Ltac lengths :=
  intros;
  repeat first
    [ rewrite length_map2
    | erewrite column_vector_length by eassumption
    | erewrite entity_vector_length by eassumption ];
  rewrite ?Nat.min_id; reflexivity.

Ltac dims :=
  first [ eapply column_vector_length; eassumption
        | eapply entity_vector_length; eassumption ].

(** What [forward_owa] returns on every batch, for a model that holds its
    tables. *)
Lemma forward_owa_run (batch : LongTensor) (w : World F) :
  initialised (self w) ->
  forward_owa batch w =
  (if (2 <? size1 batch) && entity_columnb (self w) 0 batch
      && entity_columnb (self w) 2 batch && relation_columnb (self w) 1 batch
   then Ok (map (fun row => triple_score (self w)
                   (nth 0 row 0%Z) (nth 1 row 0%Z) (nth 2 row 0%Z)) (rows batch))
   else Raise IndexError, w).
Proof.
  intros (E & T & R & Ri & HE & HT & HR & HRi & okE & okT & okR & okRi).
  pose proof okE as (_ & _ & HlE & _). pose proof okT as (_ & _ & HlT & _).
  pose proof okR as (_ & _ & HlR & _). pose proof okRi as (_ & _ & HlRi & _).
  unfold forward_owa, slice_triples, select, entity_columnb, relation_columnb.
  destruct (size1 batch) as [|[|[|k]]]; try reflexivity.
  change (2 <? S (S (S k))) with true. cbn [Nat.ltb Nat.leb rbind andb].
  unfold bind at 1. unfold lift at 1.
  unfold bind at 1. rewrite (call_run entity_embeddings _ _ _ HE HlE).
  destruct (forallb _ (rows batch)) eqn:B0; [|reflexivity].
  unfold bind at 1. rewrite (call_run entity_embeddings _ _ _ HE HlE).
  destruct (forallb (fun x => in_rangeb _ (nth 2 x 0%Z)) (rows batch)) eqn:B2; [|reflexivity].
  unfold bind at 1. rewrite (call_run tail_entity_embeddings _ _ _ HT HlT), B0.
  unfold bind at 1. rewrite (call_run tail_entity_embeddings _ _ _ HT HlT), B2.
  unfold bind at 1. rewrite (call_run relation_embeddings _ _ _ HR HlR).
  destruct (forallb (fun x => in_rangeb _ (nth 1 x 0%Z)) (rows batch)) eqn:B1; [|reflexivity].
  unfold bind at 1. rewrite (call_run inverse_relation_embeddings _ _ _ HRi HlRi), B1.
  cbn [andb].
  unfold bind at 1. unfold lift at 1. rewrite mul2_map by lengths.
  unfold bind at 1. unfold lift at 1. rewrite mul2_map by lengths.
  unfold bind at 1. unfold lift at 1. rewrite mul2_map by lengths.
  unfold bind at 1. unfold lift at 1. rewrite mul2_map by lengths.
  unfold bind at 1. unfold lift at 1. unfold sum2. rewrite !map_map, add1_map.
  unfold ret, scale1. rewrite map_map.
  f_equal. f_equal. apply map_ext_in. intros row Hrow.
  rewrite !cp_coordinates with (n := embedding_dim (self w)) by dims.
  reflexivity.
Qed.

Lemma forward_cwa_run (batch : LongTensor) (w : World F) :
  initialised (self w) ->
  forward_cwa batch w =
  (if (1 <? size1 batch) && entity_columnb (self w) 0 batch
      && relation_columnb (self w) 1 batch
   then Ok (map (fun row =>
                   map (fun t => triple_score (self w)
                                   (nth 0 row 0%Z) (nth 1 row 0%Z) t)
                       (all_entities (self w))) (rows batch))
   else Raise IndexError, w).
Proof.
  intros (E & T & R & Ri & HE & HT & HR & HRi & okE & okT & okR & okRi).
  pose proof okE as (_ & _ & HlE & _). pose proof okT as (_ & _ & HlT & _).
  pose proof okR as (_ & _ & HlR & _). pose proof okRi as (_ & _ & HlRi & _).
  unfold forward_cwa, select, entity_columnb, relation_columnb.
  destruct (size1 batch) as [|[|k]]; try reflexivity.
  change (1 <? S (S k)) with true. change (0 <? S (S k)) with true.
  cbn [andb].
  unfold bind at 1. unfold lift at 1.
  unfold bind at 1. unfold lift at 1.
  unfold bind at 1. rewrite (call_run entity_embeddings _ _ _ HE HlE).
  destruct (forallb _ (rows batch)) eqn:B0; [|reflexivity].
  unfold bind at 1. rewrite (call_run tail_entity_embeddings _ _ _ HT HlT), B0.
  unfold bind at 1. rewrite (call_run relation_embeddings _ _ _ HR HlR).
  destruct (forallb (fun x => in_rangeb _ (nth 1 x 0%Z)) (rows batch)) eqn:B1;
    [|reflexivity].
  unfold bind at 1. rewrite (call_run inverse_relation_embeddings _ _ _ HRi HlRi), B1.
  unfold bind at 1. rewrite (weight_of_run entity_embeddings _ HE HlE).
  unfold bind at 1. rewrite (weight_of_run tail_entity_embeddings _ HT HlT).
  cbn [andb].
  unfold bind at 1. unfold lift at 1. rewrite mul3_rows_rows by lengths.
  unfold bind at 1. unfold lift at 1. rewrite mul3_rows_table by lengths.
  unfold bind at 1. unfold lift at 1. rewrite mul3_table_rows by lengths.
  unfold bind at 1. unfold lift at 1. rewrite mul3_grid_rows by lengths.
  unfold bind at 1. unfold lift at 1. rewrite !sum3_grid, add2_grid.
  unfold ret. rewrite scale2_grid.
  f_equal. f_equal. apply map_ext_in. intros row Hrow.
  apply map_ext_in. intros t Ht.
  rewrite !cp_coordinates with (n := embedding_dim (self w)) by dims.
  reflexivity.
Qed.

Lemma forward_inverse_cwa_run (batch : LongTensor) (w : World F) :
  initialised (self w) ->
  forward_inverse_cwa batch w =
  (if (1 <? size1 batch) && entity_columnb (self w) 1 batch
      && relation_columnb (self w) 0 batch
   then Ok (map (fun row =>
                   map (fun h => triple_score (self w)
                                   h (nth 0 row 0%Z) (nth 1 row 0%Z))
                       (all_entities (self w))) (rows batch))
   else Raise IndexError, w).
Proof.
  intros (E & T & R & Ri & HE & HT & HR & HRi & okE & okT & okR & okRi).
  pose proof okE as (_ & _ & HlE & _). pose proof okT as (_ & _ & HlT & _).
  pose proof okR as (_ & _ & HlR & _). pose proof okRi as (_ & _ & HlRi & _).
  unfold forward_inverse_cwa, select, entity_columnb, relation_columnb.
  destruct (size1 batch) as [|[|k]]; try reflexivity.
  change (1 <? S (S k)) with true. change (0 <? S (S k)) with true.
  cbn [andb].
  unfold bind at 1. unfold lift at 1.
  unfold bind at 1. unfold lift at 1.
  unfold bind at 1. rewrite (weight_of_run entity_embeddings _ HE HlE).
  unfold bind at 1. rewrite (call_run entity_embeddings _ _ _ HE HlE).
  destruct (forallb _ (rows batch)) eqn:B1; [|reflexivity].
  unfold bind at 1. rewrite (weight_of_run tail_entity_embeddings _ HT HlT).
  unfold bind at 1. rewrite (call_run tail_entity_embeddings _ _ _ HT HlT), B1.
  unfold bind at 1. rewrite (call_run relation_embeddings _ _ _ HR HlR).
  destruct (forallb (fun x => in_rangeb _ (nth 0 x 0%Z)) (rows batch)) eqn:B0;
    [|reflexivity].
  unfold bind at 1. rewrite (call_run inverse_relation_embeddings _ _ _ HRi HlRi), B0.
  cbn [andb].
  unfold bind at 1. unfold lift at 1. rewrite mul3_table_rows by lengths.
  unfold bind at 1. unfold lift at 1. rewrite mul3_grid_rows by lengths.
  unfold bind at 1. unfold lift at 1. rewrite mul3_rows_rows by lengths.
  unfold bind at 1. unfold lift at 1. rewrite mul3_rows_table by lengths.
  unfold bind at 1. unfold lift at 1. rewrite !sum3_grid, add2_grid.
  unfold ret. rewrite scale2_grid.
  f_equal. f_equal. apply map_ext_in. intros row Hrow.
  apply map_ext_in. intros t Ht.
  rewrite !cp_coordinates with (n := embedding_dim (self w)) by dims.
  reflexivity.
Qed.

End Runs.

Section Frame.
Context {F : Type} `{Scalar F}.

Lemma reads_only_ret {A} (a : A) : reads_only (F := F) (ret a).
Proof. intros w. split; reflexivity. Qed.

Lemma reads_only_lift {A} (r : result A) : reads_only (F := F) (lift r).
Proof. intros w. split; reflexivity. Qed.

Lemma reads_only_bind {A B} (m : M (World F) A) (k : A -> M (World F) B) :
  reads_only m -> (forall a, reads_only (k a)) -> reads_only (bind m k).
Proof.
  intros Hm Hk w. unfold bind.
  destruct (Hm w) as [Hs Hg].
  assert (Hrun : forall g, m {| self := self w; generator := g |} =
                           (fst (m w), {| self := self w; generator := g |})).
  { intros g. specialize (Hg g).
    destruct (Hm {| self := self w; generator := g |}) as [Hs' _].
    destruct (m {| self := self w; generator := g |}) as [r' w'].
    simpl in *. congruence. }
  destruct (m w) as [[a|e] w'] eqn:Hmw; simpl in Hs; subst w'.
  - split; [apply Hk|].
    intros g. rewrite Hrun. simpl. apply Hk.
  - split; [reflexivity|].
    intros g. rewrite Hrun. reflexivity.
Qed.

Lemma reads_only_call (attr : Self F -> option (Embedding F)) (idx : list Z) :
  reads_only (call attr idx).
Proof.
  intros w. unfold call, bind, get, lift. simpl.
  destruct (attr (self w)); split; reflexivity.
Qed.

Lemma reads_only_weight_of (attr : Self F -> option (Embedding F)) :
  reads_only (weight_of attr).
Proof.
  intros w. unfold weight_of, bind, get, lift, ret. simpl.
  destruct (attr (self w)); split; reflexivity.
Qed.

Ltac reader :=
  repeat first
    [ apply reads_only_ret
    | apply reads_only_lift
    | apply reads_only_call
    | apply reads_only_weight_of
    | apply reads_only_bind
    | intros [[? ?] ?]
    | intro ].

Lemma forward_owa_reads_only (batch : LongTensor) :
  reads_only (F := F) (forward_owa batch).
Proof. unfold forward_owa. reader. Qed.

Lemma forward_cwa_reads_only (batch : LongTensor) :
  reads_only (F := F) (forward_cwa batch).
Proof. unfold forward_cwa. reader. Qed.

Lemma forward_inverse_cwa_reads_only (batch : LongTensor) :
  reads_only (F := F) (forward_inverse_cwa batch).
Proof. unfold forward_inverse_cwa. reader. Qed.

Lemma reads_only_twice {A} (m : M (World F) A) (w : World F) :
  reads_only m ->
  twice m w = (rbind (fst (m w)) (fun x => Ok (x, x)), w).
Proof.
  intros Hm. unfold twice, bind, ret.
  destruct (Hm w) as [Hs _].
  destruct (m w) as [[a|e] w'] eqn:Hmw; simpl in Hs; subst w'.
  - rewrite Hmw. reflexivity.
  - reflexivity.
Qed.

End Frame.

Section Claims.
Context {F : Type} `{Scalar F}.

Lemma triples_batch_ok (s : Self F) (batch : LongTensor) :
  triples_batch s batch <->
  (size1 batch = 3 /\
   (entity_columnb s 0 batch && entity_columnb s 2 batch
    && relation_columnb s 1 batch = true)).
Proof.
  unfold triples_batch.
  rewrite !andb_true_iff, !entity_columnb_spec, relation_columnb_spec.
  tauto.
Qed.

Lemma head_relation_batch_ok (s : Self F) (batch : LongTensor) :
  head_relation_batch s batch <->
  (size1 batch = 2 /\
   (entity_columnb s 0 batch && relation_columnb s 1 batch = true)).
Proof.
  unfold head_relation_batch.
  rewrite !andb_true_iff, !entity_columnb_spec, relation_columnb_spec.
  tauto.
Qed.

Lemma relation_tail_batch_ok (s : Self F) (batch : LongTensor) :
  relation_tail_batch s batch <->
  (size1 batch = 2 /\
   (entity_columnb s 1 batch && relation_columnb s 0 batch = true)).
Proof.
  unfold relation_tail_batch.
  rewrite !andb_true_iff, !entity_columnb_spec, relation_columnb_spec.
  tauto.
Qed.

Lemma forward_owa_ok (batch : LongTensor) (w : World F) :
  initialised (self w) -> triples_batch (self w) batch ->
  forward_owa batch w =
  (Ok (map (fun row => triple_score (self w)
                         (nth 0 row 0%Z) (nth 1 row 0%Z) (nth 2 row 0%Z))
           (rows batch)), w).
Proof.
  intros Hinit Hb. apply triples_batch_ok in Hb. destruct Hb as [Hsz Hcols].
  rewrite forward_owa_run by exact Hinit. rewrite Hsz.
  change (2 <? 3) with true. cbn [andb]. rewrite Hcols. reflexivity.
Qed.

Lemma forward_cwa_ok (batch : LongTensor) (w : World F) :
  initialised (self w) -> head_relation_batch (self w) batch ->
  forward_cwa batch w =
  (Ok (map (fun row =>
              map (fun t => triple_score (self w)
                              (nth 0 row 0%Z) (nth 1 row 0%Z) t)
                  (all_entities (self w))) (rows batch)), w).
Proof.
  intros Hinit Hb. apply head_relation_batch_ok in Hb.
  destruct Hb as [Hsz Hcols].
  rewrite forward_cwa_run by exact Hinit. rewrite Hsz.
  change (1 <? 2) with true. cbn [andb]. rewrite Hcols. reflexivity.
Qed.

Lemma forward_inverse_cwa_ok (batch : LongTensor) (w : World F) :
  initialised (self w) -> relation_tail_batch (self w) batch ->
  forward_inverse_cwa batch w =
  (Ok (map (fun row =>
              map (fun h => triple_score (self w)
                              h (nth 0 row 0%Z) (nth 1 row 0%Z))
                  (all_entities (self w))) (rows batch)), w).
Proof.
  intros Hinit Hb. apply relation_tail_batch_ok in Hb.
  destruct Hb as [Hsz Hcols].
  rewrite forward_inverse_cwa_run by exact Hinit. rewrite Hsz.
  change (1 <? 2) with true. cbn [andb]. rewrite Hcols. reflexivity.
Qed.

(** C1.  For a model that holds its four tables and a batch of triples of
    the documented shape whose ids are in range, [forward_owa] returns, for
    each triple (h, r, t) of the batch, exactly
    0.5 * (sum_d E(h)_d * R(r)_d * T(t)_d + sum_d E(t)_d * R_inv(r)_d * T(h)_d),
    which is [triple_score]; the value is returned as computed, with no
    clamping. *)
Theorem forward_owa_score (batch : LongTensor) (w : World F) :
  initialised (self w) ->
  triples_batch (self w) batch ->
  fst (forward_owa batch w) =
  Ok (map (fun row => triple_score (self w)
                        (nth 0 row 0%Z) (nth 1 row 0%Z) (nth 2 row 0%Z))
          (rows batch)).
Proof.
  intros Hinit Hb. rewrite forward_owa_ok by assumption. reflexivity.
Qed.

Lemma single_triple_batch (s : Self F) (h r t : Z) :
  in_range (num_entities s) h -> in_range (num_relations s) r ->
  in_range (num_entities s) t ->
  triples_batch s (single_triple h r t).
Proof.
  intros Hh Hr Ht. unfold triples_batch, entity_column, relation_column.
  simpl. repeat split; constructor; simpl; auto.
Qed.

Lemma all_entities_nth (s : Self F) (t : Z) :
  in_range (num_entities s) t ->
  nth_error (all_entities s) (Z.to_nat t) = Some t.
Proof.
  intros [H0 H1]. unfold all_entities.
  rewrite nth_error_map, nth_error_seq.
  destruct (Nat.ltb_spec (Z.to_nat t) (num_entities s)); [|lia].
  simpl. f_equal. lia.
Qed.

Lemma entry_grid {I J} (a : I -> J -> F) (l : list I) (es : list J)
      (i j : nat) (x : I) (t : J) :
  nth_error l i = Some x -> nth_error es j = Some t ->
  entry (map (fun x => map (a x) es) l) i j = Some (a x t).
Proof.
  intros Hi Hj. unfold entry.
  rewrite nth_error_map, Hi. simpl.
  rewrite nth_error_map, Hj. reflexivity.
Qed.

(** C2.  The three scoring modes agree pointwise.  Entry [i, t] of
    [forward_cwa] on a batch of (head, relation) pairs is the score
    [forward_owa] gives to the single triple (h_i, r_i, t), for every entity
    t; entry [i, h] of [forward_inverse_cwa] on a batch of (relation, tail)
    pairs is the score [forward_owa] gives to (h, r_i, t_i), for every
    entity h.  In both batches the fixed positions are columns 0 and 1. *)
Theorem scoring_modes_agree (w : World F) (heads tails : LongTensor) :
  initialised (self w) ->
  head_relation_batch (self w) heads ->
  relation_tail_batch (self w) tails ->
  (exists scores,
     fst (forward_cwa heads w) = Ok scores /\
     forall i row t,
       nth_error (rows heads) i = Some row ->
       in_range (num_entities (self w)) t ->
       exists x,
         entry scores i (Z.to_nat t) = Some x /\
         fst (forward_owa
                (single_triple (nth 0 row 0%Z) (nth 1 row 0%Z) t) w) = Ok [x]) /\
  (exists scores,
     fst (forward_inverse_cwa tails w) = Ok scores /\
     forall i row h,
       nth_error (rows tails) i = Some row ->
       in_range (num_entities (self w)) h ->
       exists x,
         entry scores i (Z.to_nat h) = Some x /\
         fst (forward_owa
                (single_triple h (nth 0 row 0%Z) (nth 1 row 0%Z)) w) = Ok [x]).
Proof.
  intros Hinit Hh Ht. split.
  - eexists. split; [rewrite forward_cwa_ok by assumption; reflexivity|].
    intros i row t Hrow Hin.
    destruct Hh as (_ & He & Hr).
    unfold entity_column in He. unfold relation_column in Hr.
    rewrite Forall_forall in He, Hr.
    pose proof (nth_error_In _ _ Hrow) as Hmem.
    eexists. split.
    + apply entry_grid; [exact Hrow|]. apply all_entities_nth. exact Hin.
    + rewrite forward_owa_ok; [reflexivity|exact Hinit|].
      apply single_triple_batch; auto.
  - eexists. split; [rewrite forward_inverse_cwa_ok by assumption; reflexivity|].
    intros i row h Hrow Hin.
    destruct Ht as (_ & Hr & He).
    unfold entity_column in He. unfold relation_column in Hr.
    rewrite Forall_forall in He, Hr.
    pose proof (nth_error_In _ _ Hrow) as Hmem.
    eexists. split.
    + apply entry_grid; [exact Hrow|]. apply all_entities_nth. exact Hin.
    + rewrite forward_owa_ok; [reflexivity|exact Hinit|].
      apply single_triple_batch; auto.
Qed.


Lemma grid_shape {I} (a : I -> Z -> F) (l : list I) (s : Self F) :
  shape2 (length l) (num_entities s)
         (map (fun x => map (a x) (all_entities s)) l).
Proof.
  split; [apply length_map|].
  apply Forall_forall. intros r Hr.
  apply in_map_iff in Hr. destruct Hr as (x & <- & _).
  unfold all_entities. rewrite !length_map, length_seq. reflexivity.
Qed.

(** C3.  Output shapes follow the batch and the entity set: on n triples
    [forward_owa] returns n scores; on n pairs [forward_cwa] and
    [forward_inverse_cwa] each return n rows of [num_entities] scores, and
    [num_entities] is the number of rows of the entity tables. *)
Theorem score_shapes (w : World F) (triples heads tails : LongTensor) :
  initialised (self w) ->
  triples_batch (self w) triples ->
  head_relation_batch (self w) heads ->
  relation_tail_batch (self w) tails ->
  (exists scores,
     fst (forward_owa triples w) = Ok scores /\
     length scores = length (rows triples)) /\
  (exists scores,
     fst (forward_cwa heads w) = Ok scores /\
     shape2 (length (rows heads)) (num_entities (self w)) scores) /\
  (exists scores,
     fst (forward_inverse_cwa tails w) = Ok scores /\
     shape2 (length (rows tails)) (num_entities (self w)) scores) /\
  (exists E T,
     entity_embeddings (self w) = Some E /\
     tail_entity_embeddings (self w) = Some T /\
     length (weight E) = num_entities (self w) /\
     length (weight T) = num_entities (self w)).
Proof.
  intros Hinit H3 Hh Ht. repeat split.
  - eexists. split; [rewrite forward_owa_ok by assumption; reflexivity|].
    apply length_map.
  - eexists. split; [rewrite forward_cwa_ok by assumption; reflexivity|].
    apply grid_shape.
  - eexists. split;
      [rewrite forward_inverse_cwa_ok by assumption; reflexivity|].
    apply grid_shape.
  - destruct Hinit as (E & T & R & Ri & HE & HT & _ & _ & okE & okT & _).
    exists E, T. repeat split; try assumption.
    + apply okE.
    + apply okT.
Qed.

(** C6.  No scoring operation changes the learned parameters: whatever the
    batch, and whether the call returns or raises, [forward_owa],
    [forward_cwa] and [forward_inverse_cwa] leave the object and the
    generator as they found them, the four embedding tables in particular. *)
Theorem scoring_preserves_tables (batch : LongTensor) (w : World F) :
  (snd (forward_owa batch w) = w /\
   snd (forward_cwa batch w) = w /\
   snd (forward_inverse_cwa batch w) = w) /\
  (tables (self (snd (forward_owa batch w))) = tables (self w) /\
   tables (self (snd (forward_cwa batch w))) = tables (self w) /\
   tables (self (snd (forward_inverse_cwa batch w))) = tables (self w)).
Proof.
  pose proof (proj1 (forward_owa_reads_only batch w)) as H1.
  pose proof (proj1 (forward_cwa_reads_only batch w)) as H2.
  pose proof (proj1 (forward_inverse_cwa_reads_only batch w)) as H3.
  rewrite H1, H2, H3. repeat split.
Qed.

Lemma not_triples_batch (s : Self F) (batch : LongTensor) :
  (2 <? size1 batch) && entity_columnb s 0 batch
    && entity_columnb s 2 batch && relation_columnb s 1 batch = false ->
  ~ triples_batch s batch.
Proof.
  intros Hb Hok. apply triples_batch_ok in Hok. destruct Hok as [Hsz Hcols].
  rewrite Hsz in Hb. change (2 <? 3) with true in Hb. cbn [andb] in Hb.
  congruence.
Qed.

Lemma not_head_relation_batch (s : Self F) (batch : LongTensor) :
  (1 <? size1 batch) && entity_columnb s 0 batch
    && relation_columnb s 1 batch = false ->
  ~ head_relation_batch s batch.
Proof.
  intros Hb Hok. apply head_relation_batch_ok in Hok.
  destruct Hok as [Hsz Hcols].
  rewrite Hsz in Hb. change (1 <? 2) with true in Hb. cbn [andb] in Hb.
  congruence.
Qed.

Lemma not_relation_tail_batch (s : Self F) (batch : LongTensor) :
  (1 <? size1 batch) && entity_columnb s 1 batch
    && relation_columnb s 0 batch = false ->
  ~ relation_tail_batch s batch.
Proof.
  intros Hb Hok. apply relation_tail_batch_ok in Hok.
  destruct Hok as [Hsz Hcols].
  rewrite Hsz in Hb. change (1 <? 2) with true in Hb. cbn [andb] in Hb.
  congruence.
Qed.

(** C7.  On a batch of the documented shape whose ids are in range each
    scoring function returns a score tensor.  On any other batch of a model
    that holds its tables the only failure is the framework's own
    [IndexError], raised by column selection or by the embedding lookup;
    nothing is caught or translated on the way. *)
Theorem scoring_errors (w : World F) (triples heads tails : LongTensor) :
  initialised (self w) ->
  triples_batch (self w) triples ->
  head_relation_batch (self w) heads ->
  relation_tail_batch (self w) tails ->
  (is_ok (fst (forward_owa triples w)) = true /\
   is_ok (fst (forward_cwa heads w)) = true /\
   is_ok (fst (forward_inverse_cwa tails w)) = true) /\
  (forall batch e,
     fst (forward_owa batch w) = Raise e ->
     e = IndexError /\ ~ triples_batch (self w) batch) /\
  (forall batch e,
     fst (forward_cwa batch w) = Raise e ->
     e = IndexError /\ ~ head_relation_batch (self w) batch) /\
  (forall batch e,
     fst (forward_inverse_cwa batch w) = Raise e ->
     e = IndexError /\ ~ relation_tail_batch (self w) batch).
Proof.
  intros Hinit H3 Hh Ht. split; [|split; [|split]].
  - rewrite forward_owa_ok, forward_cwa_ok, forward_inverse_cwa_ok
      by assumption.
    repeat split.
  - intros batch e. rewrite forward_owa_run by exact Hinit.
    destruct (_ && _) eqn:Hb; simpl; intros He; [discriminate|].
    split; [congruence|]. apply not_triples_batch. exact Hb.
  - intros batch e. rewrite forward_cwa_run by exact Hinit.
    destruct (_ && _) eqn:Hb; simpl; intros He; [discriminate|].
    split; [congruence|]. apply not_head_relation_batch. exact Hb.
  - intros batch e. rewrite forward_inverse_cwa_run by exact Hinit.
    destruct (_ && _) eqn:Hb; simpl; intros He; [discriminate|].
    split; [congruence|]. apply not_relation_tail_batch. exact Hb.
Qed.

(** C9.  Scoring is deterministic: for one model state and one batch the
    result of each scoring function is the same under every state of the
    random generator, the generator is left where it was (no draw is made),
    and a second call right after the first returns the same result. *)
Theorem scoring_deterministic (batch : LongTensor) (s : Self F)
        (g1 g2 : Generator F) :
  (fst (forward_owa batch {| self := s; generator := g1 |}) =
   fst (forward_owa batch {| self := s; generator := g2 |}) /\
   fst (forward_cwa batch {| self := s; generator := g1 |}) =
   fst (forward_cwa batch {| self := s; generator := g2 |}) /\
   fst (forward_inverse_cwa batch {| self := s; generator := g1 |}) =
   fst (forward_inverse_cwa batch {| self := s; generator := g2 |})) /\
  (generator (snd (forward_owa batch {| self := s; generator := g1 |})) = g1 /\
   generator (snd (forward_cwa batch {| self := s; generator := g1 |})) = g1 /\
   generator (snd (forward_inverse_cwa batch {| self := s; generator := g1 |}))
   = g1) /\
  (fst (twice (forward_owa batch) {| self := s; generator := g1 |}) =
   rbind (fst (forward_owa batch {| self := s; generator := g1 |}))
         (fun x => Ok (x, x)) /\
   fst (twice (forward_cwa batch) {| self := s; generator := g1 |}) =
   rbind (fst (forward_cwa batch {| self := s; generator := g1 |}))
         (fun x => Ok (x, x)) /\
   fst (twice (forward_inverse_cwa batch) {| self := s; generator := g1 |}) =
   rbind (fst (forward_inverse_cwa batch {| self := s; generator := g1 |}))
         (fun x => Ok (x, x))).
Proof.
  pose proof (forward_owa_reads_only (F := F) batch) as R1.
  pose proof (forward_cwa_reads_only (F := F) batch) as R2.
  pose proof (forward_inverse_cwa_reads_only (F := F) batch) as R3.
  split; [|split].
  - repeat split.
    + symmetry. apply (proj2 (R1 {| self := s; generator := g1 |}) g2).
    + symmetry. apply (proj2 (R2 {| self := s; generator := g1 |}) g2).
    + symmetry. apply (proj2 (R3 {| self := s; generator := g1 |}) g2).
  - rewrite (proj1 (R1 _)), (proj1 (R2 _)), (proj1 (R3 _)). repeat split.
  - rewrite !reads_only_twice by assumption. repeat split.
Qed.

Lemma drawn_ok (g : Generator F) (n d : nat) : embedding_ok n d (drawn g n d).
Proof.
  unfold embedding_ok, shape2, drawn. simpl.
  repeat split.
  - rewrite length_map, length_seq. reflexivity.
  - apply Forall_forall. intros r Hr.
    apply in_map_iff in Hr. destruct Hr as (i & <- & _).
    rewrite length_map, length_seq. reflexivity.
Qed.

(** C8.  Construction initialises the embeddings afresh: [__init__] returns
    a model whose sizes are those of the triples factory, whose entity and
    tail-entity tables have shape (num_entities, embedding_dim) and whose
    relation and inverse-relation tables have shape
    (num_relations, embedding_dim); the four tables are four successive
    draws from the generator made during the call; and no scoring operation
    replaces them. *)
Theorem init_tables (triples_factory : TriplesFactory) (dim : nat)
        (g : Generator F) :
  let ne := tf_num_entities triples_factory in
  let nr := tf_num_relations triples_factory in
  let g1 := advance (ne * dim) g in
  let g2 := advance (ne * dim) g1 in
  let g3 := advance (nr * dim) g2 in
  exists s,
    fst (__init__ triples_factory dim g) = Ok s /\
    num_entities s = ne /\ num_relations s = nr /\ embedding_dim s = dim /\
    tables s = (Some (drawn g ne dim), Some (drawn g1 ne dim),
                Some (drawn g2 nr dim), Some (drawn g3 nr dim)) /\
    initialised s /\
    forall batch g',
      self (snd (forward_owa batch {| self := s; generator := g' |})) = s /\
      self (snd (forward_cwa batch {| self := s; generator := g' |})) = s /\
      self (snd (forward_inverse_cwa batch {| self := s; generator := g' |}))
      = s.
Proof.
  intros ne nr g1 g2 g3.
  eexists. split; [reflexivity|].
  repeat split; try reflexivity.
  - do 4 eexists. repeat split; try reflexivity; apply drawn_ok.
  - rewrite (proj1 (forward_owa_reads_only batch _)). reflexivity.
  - rewrite (proj1 (forward_cwa_reads_only batch _)). reflexivity.
  - rewrite (proj1 (forward_inverse_cwa_reads_only batch _)). reflexivity.
Qed.

End Claims.

End SimplEFacts.

(* ================================================================== *)
(** * Facts about the combinations *)
(* ================================================================== *)

Module CombinationsFacts.
Import TorchFacts Combinations.

Section Layers.
Context {F : Type} `{Scalar F}.

Lemma draw_matrix_shape (n d : nat) (g : Generator F) :
  shape2 n d (match fst (draw_matrix n d g) with Ok W => W | Raise _ => [] end).
Proof.
  simpl. split.
  - rewrite length_map, length_seq. reflexivity.
  - apply Forall_forall. intros r Hr.
    apply in_map_iff in Hr. destruct Hr as (i & <- & _).
    rewrite length_map, length_seq. reflexivity.
Qed.

Lemma nn_Linear_run (i o : nat) (g : Generator F) :
  exists W b,
    nn_Linear i o g = (Ok (Linear i o W b), advance o (advance (o * i) g)) /\
    shape2 o i W /\ length b = o.
Proof.
  eexists. eexists. split; [reflexivity|]. split.
  - apply (draw_matrix_shape o i g).
  - rewrite length_map, length_seq. reflexivity.
Qed.

Lemma nn_Dropout_run (p : F) (g : Generator F) :
  nn_Dropout p g =
  (if valid_probability p then Ok (Dropout p true) else Raise ValueError, g).
Proof.
  unfold nn_Dropout. destruct (valid_probability p); reflexivity.
Qed.

Lemma length_affine (W : Mat F) (b x : Vec F) (o : nat) :
  length W = o -> length b = o -> length (affine W b x) = o.
Proof.
  intros HW Hb. unfold affine. rewrite length_map2, HW, Hb.
  apply Nat.min_id.
Qed.

Lemma linear_rows (i : nat) (W : Mat F) (b : Vec F) (x : Mat F) :
  last_dim i x -> mapR (linear_row i W b) x = Ok (map (affine W b) x).
Proof.
  intros Hx. apply mapR_pure. intros r Hr.
  unfold last_dim in Hx. rewrite Forall_forall in Hx.
  unfold linear_row. rewrite (Hx r Hr), Nat.eqb_refl. reflexivity.
Qed.

Lemma linear_rows_shape (i o : nat) (W : Mat F) (b : Vec F) (x : Mat F) :
  length W = o -> length b = o -> shape2 (length x) o (map (affine W b) x).
Proof.
  intros HW Hb. split; [apply length_map|].
  apply Forall_forall. intros r Hr.
  apply in_map_iff in Hr. destruct Hr as (v & <- & _).
  apply length_affine; assumption.
Qed.

Lemma dropout_rows (p : F) (x : Mat F) (g : Generator F) :
  exists y g',
    mapS (dropout_row p) x g = (Ok y, g') /\
    Forall2 (fun r r' => length r' = length r) x y.
Proof.
  revert g. induction x as [|r x IH]; intros g.
  - exists [], g. split; [reflexivity|constructor].
  - simpl. unfold bind at 1.
    unfold dropout_row at 1, bind at 1, draw_mask, ret at 1.
    destruct (IH (advance (length r) g)) as (y & g' & Hrun & Hlen).
    unfold bind at 1. rewrite Hrun.
    eexists. eexists. split; [reflexivity|].
    constructor; [|exact Hlen].
    unfold apply_mask. rewrite length_map2, length_map, length_seq.
    apply Nat.min_id.
Qed.

Lemma Forall2_shape (n d : nat) (x y : Mat F) :
  Forall2 (fun r r' => length r' = length r) x y ->
  shape2 n d x -> shape2 n d y.
Proof.
  intros Hxy [Hn Hd]. split.
  - rewrite <- Hn. symmetry. eapply Forall2_length. exact Hxy.
  - clear Hn. induction Hxy as [|r r' x y Hr Hxy IH]; constructor.
    + inversion Hd; subst. congruence.
    + apply IH. inversion Hd; subst. assumption.
Qed.

Lemma dropout_forward_shape (p : F) (training : bool) (n d : nat)
      (x : Mat F) (g : Generator F) :
  valid_probability p = true -> shape2 n d x ->
  exists y, fst (dropout_forward p training x g) = Ok y /\ shape2 n d y.
Proof.
  intros Hp Hx. unfold dropout_forward. rewrite Hp.
  destruct (feqb p fzero || negb training).
  - exists x. split; [reflexivity|exact Hx].
  - destruct (feqb p fone).
    + eexists. split; [reflexivity|].
      destruct Hx as [Hn Hd]. split; [rewrite length_map; exact Hn|].
      apply Forall_forall. intros r Hr.
      apply in_map_iff in Hr. destruct Hr as (v & <- & Hv).
      rewrite length_map. rewrite Forall_forall in Hd. apply Hd. exact Hv.
    + destruct (dropout_rows p x g) as (y & g' & Hrun & Hlen).
      exists y. rewrite Hrun. split; [reflexivity|].
      eapply Forall2_shape; eassumption.
Qed.

Lemma dropout_default (training : bool) (x : Mat F) (g : Generator F) :
  ScalarCmp F -> dropout_forward fzero training x g = (Ok x, g).
Proof.
  intros HC. unfold dropout_forward, valid_probability.
  rewrite fltb_zero, fltb_one_zero, feqb_zero. reflexivity.
Qed.


Lemma cat_last_map {I} (f g : I -> Vec F) (x : list I) :
  cat_last (map f x) (map g x) = Ok (map (fun r => f r ++ g r) x).
Proof.
  unfold cat_last. rewrite !length_map, Nat.eqb_refl, map2_map. reflexivity.
Qed.

Lemma split_row (d L : nat) (r : Vec F) :
  length r = 2 * d + L ->
  firstn (length (firstn (2 * d) r) / 2) (firstn (2 * d) r) = real_half d r /\
  skipn (length (firstn (2 * d) r) / 2) (firstn (2 * d) r) = imag_half d r.
Proof.
  intros Hr. unfold real_half, imag_half.
  rewrite length_firstn, Hr, Nat.min_l by lia.
  replace (2 * d / 2) with d by (rewrite Nat.mul_comm, Nat.div_mul; lia).
  split.
  - rewrite firstn_firstn, Nat.min_l by lia. reflexivity.
  - rewrite firstn_skipn_comm. f_equal. f_equal. lia.
Qed.

Lemma row_parts (d L : nat) (r : Vec F) :
  length r = 2 * d + L ->
  length (real_half d r) = d /\ length (imag_half d r) = d /\
  length (literals d r) = L /\
  r = real_half d r ++ imag_half d r ++ literals d r.
Proof.
  intros Hr. unfold real_half, imag_half, literals.
  rewrite !length_firstn, !length_skipn.
  repeat split; try lia.
  rewrite <- (firstn_skipn d r) at 1. f_equal.
  rewrite <- (firstn_skipn d (skipn d r)) at 1. f_equal.
  rewrite skipn_skipn. f_equal. lia.
Qed.

Lemma split_complex_narrow (d L : nat) (x : Mat F) :
  last_dim (2 * d + L) x ->
  split_complex (narrow_to (2 * d) x) =
  (map (real_half d) x, map (imag_half d) x).
Proof.
  intros Hx. unfold last_dim in Hx. rewrite Forall_forall in Hx.
  unfold split_complex, narrow_to. rewrite !map_map.
  f_equal; apply map_ext_in; intros r Hr;
    apply (@split_row d L r); apply Hx; exact Hr.
Qed.

Lemma forward_split (real imag : Forward F) (d L : nat) (x : Mat F)
      (g : Generator F) :
  last_dim (2 * d + L) x ->
  forward (ComplexCombination_init real imag d) x g =
  (re <- real (map (fun r => real_half d r ++ literals d r) x) ;;
   im <- imag (map (fun r => imag_half d r ++ literals d r) x) ;;
   lift (cat_last re im)) g.
Proof.
  intros Hx.
  unfold forward, ComplexCombination_init, combine_complex, narrow_from.
  cbn [embedding_dim Combinations.real Combinations.imag].
  rewrite split_complex_narrow with (L := L) by exact Hx.
  rewrite !cat_last_map.
  reflexivity.
Qed.


Lemma DistMultCombination_run (e l : nat) (p : F) (g : Generator F) :
  exists W b g',
    DistMultCombination e l p g =
    (if valid_probability p
     then Ok [Linear (e + l) e W b; Dropout p true]
     else Raise ValueError, g') /\
    shape2 e (e + l) W /\ length b = e.
Proof.
  destruct (nn_Linear_run (e + l) e g) as (W & b & Hlin & HW & Hb).
  exists W, b. eexists. split; [|split; assumption].
  unfold DistMultCombination, bind. rewrite Hlin, nn_Dropout_run.
  destruct (valid_probability p); reflexivity.
Qed.

Lemma ComplExLiteralCombination_run (e l : nat) (p : F) (g : Generator F) :
  exists W1 b1 W2 b2 g',
    ComplExLiteralCombination e l p g =
    (if valid_probability p
     then Ok (ComplexCombination_init
                (sequential_forward [Dropout p true; Linear (e + l) e W1 b1; Tanh])
                (sequential_forward [Dropout p true; Linear (e + l) e W2 b2; Tanh])
                e)
     else Raise ValueError, g') /\
    (shape2 e (e + l) W1 /\ length b1 = e) /\
    (shape2 e (e + l) W2 /\ length b2 = e).
Proof.
  destruct (nn_Linear_run (e + l) e g) as (W1 & b1 & Hl1 & HW1 & Hb1).
  destruct (nn_Linear_run (e + l) e (advance e (advance (e * (e + l)) g)))
    as (W2 & b2 & Hl2 & HW2 & Hb2).
  exists W1, b1, W2, b2.
  unfold ComplExLiteralCombination, bind.
  rewrite nn_Dropout_run.
  destruct (valid_probability p) eqn:Hp.
  - rewrite Hl1, nn_Dropout_run, Hp, Hl2.
    eexists. split; [reflexivity|]. split; split; assumption.
  - eexists. split; [reflexivity|]. split; split; assumption.
Qed.

Lemma distmult_forward (e l : nat) (p : F) (W : Mat F) (b : Vec F)
      (x : Mat F) (g : Generator F) :
  last_dim (e + l) x ->
  sequential_forward [Linear (e + l) e W b; Dropout p true] x g =
  dropout_forward p true (map (affine W b) x) g.
Proof.
  intros Hx. simpl. unfold bind at 1. unfold lift.
  rewrite linear_rows by exact Hx.
  unfold bind, ret.
  destruct (dropout_forward p true (map (affine W b) x) g) as [[y|err] g'];
    reflexivity.
Qed.

(** C5.  [DistMultCombination] is the sequence of a linear projection from
    dimension embedding_dim + num_of_literals to embedding_dim and a
    dropout with probability [input_dropout], in that order: the dropout is
    applied to the affine image of the input, and an input whose last
    dimension is embedding_dim + num_of_literals is mapped to an output
    with as many rows whose last dimension is embedding_dim. *)
Theorem distmult_combination (e l : nat) (p : F) (g g' : Generator F)
        (m : Sequential F) (x : Mat F) :
  fst (DistMultCombination e l p g) = Ok m ->
  last_dim (e + l) x ->
  (exists W b,
     m = [Linear (e + l) e W b; Dropout p true] /\
     shape2 e (e + l) W /\ length b = e /\
     sequential_forward m x g' =
     dropout_forward p true (map (affine W b) x) g') /\
  (exists y, fst (sequential_forward m x g') = Ok y /\
             shape2 (length x) e y).
Proof.
  intros Hm Hx.
  destruct (DistMultCombination_run e l p g) as (W & b & g0 & Hrun & HW & Hb).
  rewrite Hrun in Hm. simpl in Hm.
  destruct (valid_probability p) eqn:Hp; [|discriminate].
  injection Hm as <-.
  split.
  - exists W, b. repeat split; try assumption; try apply HW.
    apply distmult_forward. exact Hx.
  - rewrite distmult_forward by exact Hx.
    apply dropout_forward_shape; [exact Hp|].
    apply linear_rows_shape with (i := e + l); [apply HW|exact Hb].
Qed.

(** C4.  [ComplexCombination.forward] cuts every row of its input into a
    complex embedding of 2 * embedding_dim coordinates and the literals,
    cuts the embedding into its real and imaginary halves, applies the real
    sub-module to the real half followed by the literals and the imag
    sub-module to the imaginary half followed by the same literals, and
    returns the two results recombined.  For [ComplExLiteralCombination]
    each sub-module is a dropout, then a linear projection from
    embedding_dim + num_of_literals to embedding_dim, then tanh. *)
Theorem complex_combination_forward (e l : nat) (p : F) (g : Generator F)
        (c : ComplexCombination F) (x : Mat F) :
  last_dim (2 * e + l) x ->
  fst (ComplExLiteralCombination e l p g) = Ok c ->
  (forall real imag g',
     forward (ComplexCombination_init real imag e) x g' =
     (re <- real (map (fun r => real_half e r ++ literals e r) x) ;;
      im <- imag (map (fun r => imag_half e r ++ literals e r) x) ;;
      lift (cat_last re im)) g') /\
  (forall r, In r x ->
     length (real_half e r) = e /\ length (imag_half e r) = e /\
     length (literals e r) = l /\
     r = real_half e r ++ imag_half e r ++ literals e r) /\
  (exists W1 b1 W2 b2,
     c = ComplexCombination_init
           (sequential_forward [Dropout p true; Linear (e + l) e W1 b1; Tanh])
           (sequential_forward [Dropout p true; Linear (e + l) e W2 b2; Tanh])
           e /\
     (shape2 e (e + l) W1 /\ length b1 = e) /\
     (shape2 e (e + l) W2 /\ length b2 = e)).
Proof.
  intros Hx Hc. split; [|split].
  - intros real imag g'. apply forward_split with (L := l). exact Hx.
  - intros r Hr. apply row_parts.
    unfold last_dim in Hx. rewrite Forall_forall in Hx. apply Hx. exact Hr.
  - destruct (ComplExLiteralCombination_run e l p g)
      as (W1 & b1 & W2 & b2 & g0 & Hrun & H1 & H2).
    rewrite Hrun in Hc. simpl in Hc.
    destruct (valid_probability p); [|discriminate].
    injection Hc as <-.
    exists W1, b1, W2, b2. repeat split; try apply H1; try apply H2.
Qed.

Lemma tanh_layers_default (e l : nat) (W : Mat F) (b : Vec F)
      (x : Mat F) (g : Generator F) :
  ScalarCmp F -> last_dim (e + l) x ->
  sequential_forward [Dropout fzero true; Linear (e + l) e W b; Tanh] x g =
  (Ok (map (tanh_affine W b) x), g).
Proof.
  intros HC Hx. simpl. unfold bind at 1.
  rewrite dropout_default by exact HC.
  unfold bind, lift, ret. rewrite linear_rows by exact Hx.
  rewrite map_map. reflexivity.
Qed.

Lemma halves_last_dim (e l : nat) (z : Mat F) :
  last_dim (2 * e + l) z ->
  last_dim (e + l) (map (fun r => real_half e r ++ literals e r) z) /\
  last_dim (e + l) (map (fun r => imag_half e r ++ literals e r) z).
Proof.
  intros Hz. unfold last_dim in *. rewrite Forall_forall in Hz.
  split; apply Forall_forall; intros v Hv;
    apply in_map_iff in Hv; destruct Hv as (r & <- & Hr);
    destruct (@row_parts e l r (Hz r Hr)) as (H1 & H2 & H3 & _);
    rewrite length_app; lia.
Qed.

(** C10.  With the default [input_dropout = 0.0] the dropout is the
    identity.  [DistMultCombination] returns the sequence of one linear
    layer, with a weight W of shape (embedding_dim,
    embedding_dim + num_of_literals) and a bias b, and a dropout; on every
    input of the right width it computes exactly the affine map
    x -> W x + b.  [ComplExLiteralCombination] returns the combination of
    two sub-modules with linear layers (W_re, b_re) and (W_im, b_im) of
    that shape; on every input of the right width it computes exactly
    tanh(W_re [x_re, literal] + b_re) and tanh(W_im [x_im, literal] + b_im)
    recombined.  The weights are those of the constructed module, fixed
    before any input; both results are the same under every state of the
    generator, which is left where it was. *)
Theorem default_dropout_is_identity (e l : nat) (g : Generator F) :
  ScalarCmp F ->
  (exists W b,
     fst (DistMultCombination e l default_input_dropout g) =
     Ok [Linear (e + l) e W b; Dropout fzero true] /\
     (shape2 e (e + l) W /\ length b = e) /\
     forall x g',
       last_dim (e + l) x ->
       sequential_forward [Linear (e + l) e W b; Dropout fzero true] x g' =
       (Ok (map (affine W b) x), g')) /\
  (exists W_re b_re W_im b_im,
     fst (ComplExLiteralCombination e l default_input_dropout g) =
     Ok (ComplexCombination_init
           (sequential_forward
              [Dropout fzero true; Linear (e + l) e W_re b_re; Tanh])
           (sequential_forward
              [Dropout fzero true; Linear (e + l) e W_im b_im; Tanh])
           e) /\
     (shape2 e (e + l) W_re /\ length b_re = e) /\
     (shape2 e (e + l) W_im /\ length b_im = e) /\
     forall z g',
       last_dim (2 * e + l) z ->
       forward
         (ComplexCombination_init
            (sequential_forward
               [Dropout fzero true; Linear (e + l) e W_re b_re; Tanh])
            (sequential_forward
               [Dropout fzero true; Linear (e + l) e W_im b_im; Tanh])
            e) z g' =
       (Ok (map (fun r =>
                   tanh_affine W_re b_re (real_half e r ++ literals e r) ++
                   tanh_affine W_im b_im (imag_half e r ++ literals e r)) z),
        g')).
Proof.
  intros HC.
  assert (Hp : valid_probability (F := F) fzero = true).
  { unfold valid_probability. rewrite fltb_zero, fltb_one_zero. reflexivity. }
  split.
  - destruct (DistMultCombination_run e l default_input_dropout g)
      as (W & b & g0 & Hrun & HW & Hb).
    unfold default_input_dropout in *. rewrite Hp in Hrun.
    exists W, b. split; [rewrite Hrun; reflexivity|].
    split; [split; assumption|].
    intros x g' Hx. rewrite distmult_forward by exact Hx.
    apply dropout_default. exact HC.
  - destruct (ComplExLiteralCombination_run e l default_input_dropout g)
      as (W1 & b1 & W2 & b2 & g0 & Hrun & H1 & H2).
    unfold default_input_dropout in *. rewrite Hp in Hrun.
    exists W1, b1, W2, b2. split; [rewrite Hrun; reflexivity|].
    split; [exact H1|]. split; [exact H2|].
    intros z g' Hz. rewrite forward_split with (L := l) by exact Hz.
    destruct (halves_last_dim e l Hz) as [Hre Him].
    unfold bind at 1. rewrite tanh_layers_default by assumption.
    unfold bind at 1. rewrite tanh_layers_default by assumption.
    unfold lift. rewrite !map_map, cat_last_map. reflexivity.
Qed.

End Layers.
End CombinationsFacts.

(* ================================================================== *)
(** * The results on a concrete model *)
(* ================================================================== *)

(** Each result that carries a hypothesis is applied once to the toy model
    of module [Rational], with its hypotheses established by computation. *)

Module Witnesses.
Import SimplE SimplEFacts Combinations CombinationsFacts Rational.

Ltac toy_initialised :=
  unfold initialised; do 4 eexists; repeat split; repeat constructor.

Ltac toy_last_dim := unfold last_dim; repeat constructor.

Lemma forward_owa_score_witness :
  initialised toy /\ triples_batch toy triples /\
  fst (forward_owa triples toy_world) = Ok [(21 # 2)%Q; (14 # 2)%Q].
Proof.
  assert (Hi : initialised toy) by toy_initialised.
  assert (Hb : triples_batch toy triples)
    by (apply triples_batch_ok; split; reflexivity).
  split; [exact Hi|]. split; [exact Hb|].
  exact (@forward_owa_score Q Q_scalar triples toy_world Hi Hb).
Defined.

Lemma scoring_modes_agree_witness :
  initialised toy /\ head_relation_batch toy pairs /\
  relation_tail_batch toy pairs /\
  (exists scores,
     fst (forward_cwa pairs toy_world) = Ok scores /\
     forall i row t,
       nth_error (rows pairs) i = Some row ->
       in_range 3 t ->
       exists x,
         entry scores i (Z.to_nat t) = Some x /\
         fst (forward_owa
                (single_triple (nth 0 row 0%Z) (nth 1 row 0%Z) t) toy_world)
         = Ok [x]).
Proof.
  assert (Hi : initialised toy) by toy_initialised.
  assert (Hh : head_relation_batch toy pairs)
    by (apply head_relation_batch_ok; split; reflexivity).
  assert (Ht : relation_tail_batch toy pairs)
    by (apply relation_tail_batch_ok; split; reflexivity).
  split; [exact Hi|]. split; [exact Hh|]. split; [exact Ht|].
  exact (proj1 (@scoring_modes_agree Q Q_scalar toy_world pairs pairs
                  Hi Hh Ht)).
Defined.

Lemma score_shapes_witness :
  initialised toy /\ triples_batch toy triples /\
  head_relation_batch toy pairs /\ relation_tail_batch toy pairs /\
  (exists scores,
     fst (forward_cwa pairs toy_world) = Ok scores /\ shape2 2 3 scores).
Proof.
  assert (Hi : initialised toy) by toy_initialised.
  assert (Hb : triples_batch toy triples)
    by (apply triples_batch_ok; split; reflexivity).
  assert (Hh : head_relation_batch toy pairs)
    by (apply head_relation_batch_ok; split; reflexivity).
  assert (Ht : relation_tail_batch toy pairs)
    by (apply relation_tail_batch_ok; split; reflexivity).
  split; [exact Hi|]. split; [exact Hb|]. split; [exact Hh|].
  split; [exact Ht|].
  exact (proj1 (proj2 (@score_shapes Q Q_scalar toy_world triples pairs pairs
                         Hi Hb Hh Ht))).
Defined.

Lemma scoring_errors_witness :
  initialised toy /\ triples_batch toy triples /\
  head_relation_batch toy pairs /\ relation_tail_batch toy pairs /\
  is_ok (fst (forward_owa triples toy_world)) = true /\
  is_ok (fst (forward_cwa pairs toy_world)) = true /\
  is_ok (fst (forward_inverse_cwa pairs toy_world)) = true.
Proof.
  assert (Hi : initialised toy) by toy_initialised.
  assert (Hb : triples_batch toy triples)
    by (apply triples_batch_ok; split; reflexivity).
  assert (Hh : head_relation_batch toy pairs)
    by (apply head_relation_batch_ok; split; reflexivity).
  assert (Ht : relation_tail_batch toy pairs)
    by (apply relation_tail_batch_ok; split; reflexivity).
  split; [exact Hi|]. split; [exact Hb|]. split; [exact Hh|].
  split; [exact Ht|].
  exact (proj1 (@scoring_errors Q Q_scalar toy_world triples pairs pairs
                  Hi Hb Hh Ht)).
Defined.

Lemma distmult_combination_witness :
  fst (DistMultCombination 2 1 (1 # 2)%Q (gen 0)) =
  Ok [Linear 3 2 [[0 # 7; 1 # 7; 2 # 7]; [3 # 7; 4 # 7; 5 # 7]]%Q
             [6 # 7; 7 # 7]%Q;
      Dropout (1 # 2)%Q true] /\
  last_dim 3 [[1; 2; 3]; [4; 5; 6]]%Q /\
  (exists y,
     fst (sequential_forward
            [Linear 3 2 [[0 # 7; 1 # 7; 2 # 7]; [3 # 7; 4 # 7; 5 # 7]]%Q
                    [6 # 7; 7 # 7]%Q;
             Dropout (1 # 2)%Q true]
            [[1; 2; 3]; [4; 5; 6]]%Q (gen 5)) = Ok y /\
     shape2 2 2 y).
Proof.
  assert (Hm : fst (DistMultCombination 2 1 (1 # 2)%Q (gen 0)) =
               Ok [Linear 3 2 [[0 # 7; 1 # 7; 2 # 7]; [3 # 7; 4 # 7; 5 # 7]]%Q
                          [6 # 7; 7 # 7]%Q;
                   Dropout (1 # 2)%Q true]) by reflexivity.
  assert (Hx : last_dim 3 [[1; 2; 3]; [4; 5; 6]]%Q) by toy_last_dim.
  split; [exact Hm|]. split; [exact Hx|].
  exact (proj2 (@distmult_combination Q Q_scalar 2 1 (1 # 2)%Q (gen 0) (gen 5)
                  _ [[1; 2; 3]; [4; 5; 6]]%Q Hm Hx)).
Defined.

Lemma complex_combination_forward_witness :
  last_dim 3 [[1; 2; 3]; [4; 5; 6]]%Q /\
  fst (ComplExLiteralCombination 1 1 0%Q (gen 0)) =
  Ok (ComplexCombination_init
        (sequential_forward
           [Dropout 0%Q true; Linear 2 1 [[0 # 7; 1 # 7]]%Q [2 # 7]%Q; Tanh])
        (sequential_forward
           [Dropout 0%Q true; Linear 2 1 [[3 # 7; 4 # 7]]%Q [5 # 7]%Q; Tanh])
        1) /\
  (forall r, In r [[1; 2; 3]; [4; 5; 6]]%Q ->
     length (real_half 1 r) = 1 /\ length (imag_half 1 r) = 1 /\
     length (literals 1 r) = 1 /\
     r = real_half 1 r ++ imag_half 1 r ++ literals 1 r).
Proof.
  assert (Hx : last_dim (2 * 1 + 1) [[1; 2; 3]; [4; 5; 6]]%Q)
    by toy_last_dim.
  assert (Hc : fst (ComplExLiteralCombination 1 1 0%Q (gen 0)) =
    Ok (ComplexCombination_init
          (sequential_forward
             [Dropout 0%Q true; Linear 2 1 [[0 # 7; 1 # 7]]%Q [2 # 7]%Q; Tanh])
          (sequential_forward
             [Dropout 0%Q true; Linear 2 1 [[3 # 7; 4 # 7]]%Q [5 # 7]%Q; Tanh])
          1)) by reflexivity.
  split; [exact Hx|]. split; [exact Hc|].
  exact (proj1 (proj2 (@complex_combination_forward Q Q_scalar 1 1 0%Q (gen 0)
                         _ [[1; 2; 3]; [4; 5; 6]]%Q Hx Hc))).
Defined.

Lemma default_dropout_is_identity_witness :
  ScalarCmp Q /\
  (exists W_re b_re W_im b_im,
     fst (ComplExLiteralCombination 1 1 default_input_dropout (gen 0)) =
     Ok (ComplexCombination_init
           (sequential_forward
              [Dropout fzero true; Linear (1 + 1) 1 W_re b_re; Tanh])
           (sequential_forward
              [Dropout fzero true; Linear (1 + 1) 1 W_im b_im; Tanh])
           1) /\
     (shape2 1 (1 + 1) W_re /\ length b_re = 1) /\
     (shape2 1 (1 + 1) W_im /\ length b_im = 1) /\
     forall z g',
       last_dim (2 * 1 + 1) z ->
       forward
         (ComplexCombination_init
            (sequential_forward
               [Dropout fzero true; Linear (1 + 1) 1 W_re b_re; Tanh])
            (sequential_forward
               [Dropout fzero true; Linear (1 + 1) 1 W_im b_im; Tanh])
            1) z g' =
       (Ok (map (fun r =>
                   tanh_affine W_re b_re (real_half 1 r ++ literals 1 r) ++
                   tanh_affine W_im b_im (imag_half 1 r ++ literals 1 r)) z),
        g')).
Proof.
  assert (HC : ScalarCmp Q) by (split; reflexivity).
  split; [exact HC|].
  exact (proj2 (@default_dropout_is_identity Q Q_scalar 1 1 (gen 0) HC)).
Defined.

End Witnesses.

(* ================================================================== *)
(** * Further facts about SimplE *)
(* ================================================================== *)

Module SimplEMore.
Import TorchFacts SimplE SimplEFacts Batches.
Section Scoring.
Context {F : Type} `{Scalar F}.

Lemma columnb_false_entity (s : Self F) (k : nat) (b : LongTensor) :
  entity_columnb s k b = false -> ~ entity_column s k b.
Proof.
  intros Hb Hc. apply entity_columnb_spec in Hc. congruence.
Qed.

Lemma columnb_false_relation (s : Self F) (k : nat) (b : LongTensor) :
  relation_columnb s k b = false -> ~ relation_column s k b.
Proof.
  intros Hb Hc. apply relation_columnb_spec in Hc. congruence.
Qed.

(** X1.  A scoring call on a model that holds its tables raises the
    framework's [IndexError], and leaves the model and the generator as they
    were, in each of these cases: [forward_cwa] or [forward_inverse_cwa] on
    a batch with fewer than two columns (the column is selected by an
    integer index); any of the three functions on a batch of its documented
    width that holds an id that is negative or not below the size of its
    table.  Ids are never wrapped around or clamped. *)
Theorem invalid_batches_raise (w : World F) (heads tails triples : LongTensor) :
  initialised (self w) ->
  ~ (1 < size1 heads /\ entity_column (self w) 0 heads /\
     relation_column (self w) 1 heads) ->
  ~ (1 < size1 tails /\ relation_column (self w) 0 tails /\
     entity_column (self w) 1 tails) ->
  size1 triples = 3 ->
  ~ (entity_column (self w) 0 triples /\
     relation_column (self w) 1 triples /\ entity_column (self w) 2 triples) ->
  forward_cwa heads w = (Raise IndexError, w) /\
  forward_inverse_cwa tails w = (Raise IndexError, w) /\
  forward_owa triples w = (Raise IndexError, w).
Proof.
  intros Hinit Hh Ht Hsz H3. repeat split.
  - rewrite forward_cwa_run by exact Hinit.
    destruct (_ && _) eqn:Hb; [|reflexivity].
    exfalso. apply Hh.
    rewrite !andb_true_iff, Nat.ltb_lt in Hb.
    rewrite entity_columnb_spec, relation_columnb_spec in Hb. tauto.
  - rewrite forward_inverse_cwa_run by exact Hinit.
    destruct (_ && _) eqn:Hb; [|reflexivity].
    exfalso. apply Ht.
    rewrite !andb_true_iff, Nat.ltb_lt in Hb.
    rewrite entity_columnb_spec, relation_columnb_spec in Hb. tauto.
  - rewrite forward_owa_run by exact Hinit.
    destruct (_ && _) eqn:Hb; [|reflexivity].
    exfalso. apply H3.
    rewrite !andb_true_iff in Hb.
    rewrite !entity_columnb_spec, relation_columnb_spec in Hb. tauto.
Qed.

(** X2.  The two closed-world modes give one triple the same score: when
    row i of a (head, relation) batch is (h, r) and row j of a
    (relation, tail) batch is (r, t), entry [i, t] of [forward_cwa] is entry
    [j, h] of [forward_inverse_cwa]. *)
Theorem cwa_modes_agree (w : World F) (heads tails : LongTensor)
        (i j : nat) (h r t : Z) :
  initialised (self w) ->
  head_relation_batch (self w) heads ->
  relation_tail_batch (self w) tails ->
  nth_error (rows heads) i = Some [h; r] ->
  nth_error (rows tails) j = Some [r; t] ->
  exists by_tail by_head x,
    fst (forward_cwa heads w) = Ok by_tail /\
    fst (forward_inverse_cwa tails w) = Ok by_head /\
    entry by_tail i (Z.to_nat t) = Some x /\
    entry by_head j (Z.to_nat h) = Some x.
Proof.
  intros Hinit Hh Ht Hi Hj.
  rewrite forward_cwa_ok, forward_inverse_cwa_ok by assumption.
  destruct Hh as (_ & Hhe & _). destruct Ht as (_ & _ & Hte).
  unfold entity_column in Hhe, Hte. rewrite Forall_forall in Hhe, Hte.
  pose proof (Hhe _ (nth_error_In _ _ Hi)) as Hhr.
  pose proof (Hte _ (nth_error_In _ _ Hj)) as Htr.
  simpl in Hhr, Htr.
  do 2 eexists. exists (triple_score (self w) h r t).
  split; [reflexivity|]. split; [reflexivity|]. split.
  - erewrite entry_grid
      by (first [eassumption | apply all_entities_nth; assumption]).
    reflexivity.
  - erewrite entry_grid
      by (first [eassumption | apply all_entities_nth; assumption]).
    reflexivity.
Qed.

Lemma nth_skipn {A} (k n : nat) (l : list A) (d : A) :
  nth n (skipn k l) d = nth (k + n) l d.
Proof.
  revert l. induction k as [|k IH]; intros [|x l]; simpl; try reflexivity.
  - destruct n; reflexivity.
  - apply IH.
Qed.

(** X3.  On a batch of triples, the score [forward_owa] gives to triple i
    is found at column t_i of row i of [forward_cwa] applied to the same
    batch (which reads only its first two columns), and at column h_i of
    row i of [forward_inverse_cwa] applied to the batch without its first
    column. *)
Theorem true_triple_entries (w : World F) (triples : LongTensor) :
  initialised (self w) ->
  triples_batch (self w) triples ->
  exists scores by_tail by_head,
    fst (forward_owa triples w) = Ok scores /\
    fst (forward_cwa triples w) = Ok by_tail /\
    fst (forward_inverse_cwa (columns_from 1 triples) w) = Ok by_head /\
    forall i row,
      nth_error (rows triples) i = Some row ->
      exists x,
        nth_error scores i = Some x /\
        entry by_tail i (Z.to_nat (nth 2 row 0%Z)) = Some x /\
        entry by_head i (Z.to_nat (nth 0 row 0%Z)) = Some x.
Proof.
  intros Hinit Hb.
  rewrite forward_owa_ok by assumption.
  pose proof Hb as (Hsz & He0 & Hr1 & He2).
  rewrite forward_cwa_run by exact Hinit.
  rewrite forward_inverse_cwa_run by exact Hinit.
  assert (Hc1 : entity_columnb (self w) 1 (columns_from 1 triples) = true).
  { apply entity_columnb_spec. unfold entity_column, columns_from. cbn [rows].
    apply Forall_forall. intros r Hr. apply in_map_iff in Hr.
    destruct Hr as (row & <- & Hrow). rewrite nth_skipn. simpl.
    unfold entity_column in He2. rewrite Forall_forall in He2. auto. }
  assert (Hc0 : relation_columnb (self w) 0 (columns_from 1 triples) = true).
  { apply relation_columnb_spec. unfold relation_column, columns_from. cbn [rows].
    apply Forall_forall. intros r Hr. apply in_map_iff in Hr.
    destruct Hr as (row & <- & Hrow). rewrite nth_skipn. simpl.
    unfold relation_column in Hr1. rewrite Forall_forall in Hr1. auto. }
  rewrite Hc1, Hc0.
  apply entity_columnb_spec in He0 as Hb0.
  apply relation_columnb_spec in Hr1 as Hb1.
  rewrite Hb0, Hb1.
  unfold columns_from at 1. cbn [size1]. rewrite Hsz.
  change (1 <? 3) with true. change (1 <? 3 - 1) with true. cbn [andb fst].
  do 3 eexists. split; [reflexivity|]. split; [reflexivity|].
  split; [reflexivity|].
  intros i row Hrow.
  unfold entity_column in He0, He2. rewrite Forall_forall in He0, He2.
  pose proof (nth_error_In _ _ Hrow) as Hmem.
  eexists. split; [|split].
  - rewrite nth_error_map, Hrow. reflexivity.
  - erewrite entry_grid
      by (first [eassumption | apply all_entities_nth; auto]).
    reflexivity.
  - unfold columns_from. cbn [rows]. rewrite map_map.
    erewrite entry_grid
      by (first [eassumption | apply all_entities_nth; auto]).
    rewrite !nth_skipn. reflexivity.
Qed.


Lemma entity_columnb_stack (s : Self F) (k : nat) (a b : LongTensor) :
  entity_columnb s k (stack a b) =
  entity_columnb s k a && entity_columnb s k b.
Proof. unfold entity_columnb, stack. cbn [rows]. apply forallb_app. Qed.

Lemma relation_columnb_stack (s : Self F) (k : nat) (a b : LongTensor) :
  relation_columnb s k (stack a b) =
  relation_columnb s k a && relation_columnb s k b.
Proof. unfold relation_columnb, stack. cbn [rows]. apply forallb_app. Qed.

(** X4.  Rows are scored independently: on two batches stacked one above
    the other each scoring function returns the results of the two batches
    one after the other, and raises when one of the two raises. *)
Theorem stacked_batches (w : World F) (a b : LongTensor) :
  initialised (self w) ->
  size1 a = size1 b ->
  fst (forward_owa (stack a b) w) =
    rbind (fst (forward_owa a w)) (fun x =>
    rbind (fst (forward_owa b w)) (fun y => Ok (x ++ y))) /\
  fst (forward_cwa (stack a b) w) =
    rbind (fst (forward_cwa a w)) (fun x =>
    rbind (fst (forward_cwa b w)) (fun y => Ok (x ++ y))) /\
  fst (forward_inverse_cwa (stack a b) w) =
    rbind (fst (forward_inverse_cwa a w)) (fun x =>
    rbind (fst (forward_inverse_cwa b w)) (fun y => Ok (x ++ y))).
Proof.
  intros Hinit Hsz.
  rewrite !forward_owa_run, !forward_cwa_run, !forward_inverse_cwa_run
    by exact Hinit.
  rewrite !entity_columnb_stack, !relation_columnb_stack.
  unfold stack at 1 2 3 4 5 6. cbn [size1 rows]. rewrite <- Hsz, !map_app.
  destruct (2 <? size1 a), (1 <? size1 a),
    (entity_columnb (self w) 0 a), (entity_columnb (self w) 0 b),
    (entity_columnb (self w) 1 a), (entity_columnb (self w) 1 b),
    (entity_columnb (self w) 2 a), (entity_columnb (self w) 2 b),
    (relation_columnb (self w) 0 a), (relation_columnb (self w) 0 b),
    (relation_columnb (self w) 1 a), (relation_columnb (self w) 1 b);
    repeat split.
Qed.

Lemma swap_initialised (s : Self F) :
  initialised s -> initialised (swap_relations s).
Proof.
  intros (E & T & R & Ri & HE & HT & HR & HRi & okE & okT & okR & okRi).
  exists E, T, Ri, R. unfold swap_relations. cbn.
  repeat split; try assumption; try apply okE; try apply okT;
    try apply okR; try apply okRi.
Qed.

Lemma reverse_triples_batch (s : Self F) (triples : LongTensor) :
  triples_batch s triples ->
  triples_batch (swap_relations s) (reverse_triples triples).
Proof.
  intros (_ & He0 & Hr1 & He2).
  unfold triples_batch, entity_column, relation_column in *.
  rewrite Forall_forall in He0, Hr1, He2.
  unfold reverse_triples. cbn [size1 rows].
  split; [reflexivity|].
  repeat split; apply Forall_forall; intros r Hr;
    apply in_map_iff in Hr; destruct Hr as (row & <- & Hrow); cbn; auto.
Qed.

(** X5.  The score of a triple is the score of its inverse triple under
    exchanged relation tables: when float addition is commutative,
    [forward_owa] on the rows (t, r, h) of a model whose relation and
    inverse-relation tables are exchanged returns what [forward_owa]
    returns on the rows (h, r, t) of the model. *)
Theorem inverse_triple_symmetry (w : World F) (triples : LongTensor) :
  (forall x y : F, fadd x y = fadd y x) ->
  initialised (self w) ->
  triples_batch (self w) triples ->
  fst (forward_owa (reverse_triples triples)
         {| self := swap_relations (self w); generator := generator w |}) =
  fst (forward_owa triples w).
Proof.
  intros Hcomm Hinit Hb.
  rewrite forward_owa_ok
    by (first [apply swap_initialised | apply reverse_triples_batch];
        assumption).
  rewrite forward_owa_ok by assumption.
  cbn [fst self]. unfold reverse_triples. cbn [rows]. rewrite map_map.
  f_equal. apply map_ext. intros row.
  unfold triple_score, swap_relations. cbn.
  rewrite Hcomm. reflexivity.
Qed.

Lemma table_ok (f : nat -> F) (c n d : nat) :
  embedding_ok n d
    {| num_embeddings := n;
       Torch.embedding_dim := d;
       weight := map (fun i => map f (seq (c + i * d) d)) (seq 0 n) |}.
Proof.
  unfold embedding_ok, shape2. cbn.
  repeat split.
  - rewrite length_map, length_seq. reflexivity.
  - apply Forall_forall. intros r Hr.
    apply in_map_iff in Hr. destruct Hr as (i & <- & _).
    rewrite length_map, length_seq. reflexivity.
Qed.

Lemma init_initialised (triples_factory : TriplesFactory) (dim : nat)
      (g : Generator F) (s : Self F) :
  fst (__init__ triples_factory dim g) = Ok s ->
  initialised s /\
  num_entities s = tf_num_entities triples_factory /\
  num_relations s = tf_num_relations triples_factory /\
  embedding_dim s = dim.
Proof.
  intros Hs. cbn in Hs. injection Hs as <-.
  split; [|repeat split].
  do 4 eexists. do 4 (split; [reflexivity|]).
  split; [|split; [|split]]; apply table_ok.
Qed.

(** X6.  A model that [__init__] has returned can be scored at once: on
    batches of the documented shapes with ids below the sizes of the triples
    factory the three scoring functions return, with one score per triple
    and one row of [num_entities] scores per pair; on no batch do they raise
    anything but [IndexError], so no table is left unset. *)
Theorem constructed_model_scores
        (triples_factory : TriplesFactory) (dim : nat) (g g' : Generator F)
        (s : Self F) (triples heads tails : LongTensor) :
  fst (__init__ triples_factory dim g) = Ok s ->
  triples_batch s triples ->
  head_relation_batch s heads ->
  relation_tail_batch s tails ->
  (exists a b c,
     fst (forward_owa triples {| self := s; generator := g' |}) = Ok a /\
     fst (forward_cwa heads {| self := s; generator := g' |}) = Ok b /\
     fst (forward_inverse_cwa tails {| self := s; generator := g' |}) = Ok c /\
     length a = length (rows triples) /\
     shape2 (length (rows heads)) (tf_num_entities triples_factory) b /\
     shape2 (length (rows tails)) (tf_num_entities triples_factory) c) /\
  (forall batch e,
     fst (forward_owa batch {| self := s; generator := g' |}) = Raise e \/
     fst (forward_cwa batch {| self := s; generator := g' |}) = Raise e \/
     fst (forward_inverse_cwa batch {| self := s; generator := g' |}) = Raise e ->
     e = IndexError).
Proof.
  intros Hs H3 Hh Ht.
  destruct (init_initialised Hs) as (Hinit & Hne & _).
  set (w := {| self := s; generator := g' |}).
  assert (Hw : initialised (self w)) by exact Hinit.
  split.
  - do 3 eexists.
    rewrite forward_owa_ok, forward_cwa_ok, forward_inverse_cwa_ok
      by assumption.
    split; [reflexivity|]. split; [reflexivity|]. split; [reflexivity|].
    split; [apply length_map|].
    rewrite <- Hne. split; apply grid_shape.
  - intros batch e.
    rewrite forward_owa_run, forward_cwa_run, forward_inverse_cwa_run
      by exact Hw.
    cbn [fst].
    intros [He|[He|He]];
      match type of He with
      | (if ?c then _ else _) = _ => destruct c
      end; congruence.
Qed.

End Scoring.
End SimplEMore.

(* ================================================================== *)
(** * Further facts about the combinations *)
(* ================================================================== *)

Module CombinationsMore.
Import TorchFacts Combinations CombinationsFacts Batches.
Section Shapes.
Context {F : Type} `{Scalar F}.

Lemma dropout_forward_rows (p : F) (training : bool) (x : Mat F)
      (g : Generator F) :
  valid_probability p = true ->
  exists y g1,
    dropout_forward p training x g = (Ok y, g1) /\
    Forall2 (fun r r' => length r' = length r) x y.
Proof.
  intros Hp. unfold dropout_forward. rewrite Hp.
  destruct (feqb p fzero || negb training).
  - exists x, g. split; [reflexivity|].
    induction x; constructor; auto.
  - destruct (feqb p fone).
    + eexists. exists g. split; [reflexivity|].
      induction x; constructor; auto. apply length_map.
    + destruct (dropout_rows p x g) as (y & g1 & Hrun & Hlen).
      exists y, g1. split; assumption.
Qed.

Lemma tanh_layers_run (e l n : nat) (p : F) (W : Mat F) (b : Vec F)
      (x : Mat F) (g : Generator F) :
  valid_probability p = true ->
  shape2 n (e + l) x -> length W = e -> length b = e ->
  exists y,
    sequential_forward [Dropout p true; Linear (e + l) e W b; Tanh] x g =
    (Ok y, snd (dropout_forward p true x g)) /\
    shape2 n e y.
Proof.
  intros Hp Hx HW Hb.
  destruct (@dropout_forward_rows p true x g Hp) as (y0 & g1 & Hrun & Hrows).
  assert (Hy0 : shape2 n (e + l) y0) by (eapply Forall2_shape; eassumption).
  destruct Hy0 as [Hn Hd].
  cbn [sequential_forward layer_forward]. unfold bind at 1. rewrite Hrun.
  unfold bind, lift, ret. rewrite linear_rows by exact Hd.
  eexists. split; [reflexivity|].
  split.
  - rewrite !length_map. exact Hn.
  - apply Forall_forall. intros r Hr.
    apply in_map_iff in Hr. destruct Hr as (v & <- & Hv).
    apply in_map_iff in Hv. destruct Hv as (u & <- & _).
    rewrite length_map. apply length_affine; assumption.
Qed.

Lemma cat_last_shape (n a b : nat) (x y : Mat F) :
  shape2 n a x -> shape2 n b y ->
  cat_last x y = Ok (map2 (@app F) x y) /\
  shape2 n (a + b) (map2 (@app F) x y).
Proof.
  intros [Hnx Hx] [Hny Hy]. unfold cat_last.
  rewrite Hnx, Hny, Nat.eqb_refl. split; [reflexivity|].
  subst n. revert y Hny Hy.
  induction x as [|r x IH]; intros [|r' y] Hny Hy; try discriminate.
  - split; [reflexivity|constructor].
  - apply Forall_cons_iff in Hx. destruct Hx as [Hr Hx].
    apply Forall_cons_iff in Hy. destruct Hy as [Hr' Hy].
    injection Hny as Hny.
    destruct (IH Hx y Hny Hy) as [Hlen Hall].
    split; [simpl; rewrite Hlen; reflexivity|].
    constructor; [|exact Hall].
    rewrite length_app, Hr, Hr'. reflexivity.
Qed.

Lemma halves_shape (e l : nat) (z : Mat F) :
  last_dim (2 * e + l) z ->
  shape2 (length z) (e + l) (map (fun r => real_half e r ++ literals e r) z) /\
  shape2 (length z) (e + l) (map (fun r => imag_half e r ++ literals e r) z).
Proof.
  intros Hz. assert (Hh := Hz). apply halves_last_dim in Hh. destruct Hh as [Hre Him].
  split; (split; [apply length_map|assumption]).
Qed.

Lemma constructed_layers (e l : nat) (p : F) (g : Generator F)
      (c : ComplexCombination F) :
  fst (ComplExLiteralCombination e l p g) = Ok c ->
  valid_probability p = true /\
  exists W1 b1 W2 b2,
    c = ComplexCombination_init
          (sequential_forward [Dropout p true; Linear (e + l) e W1 b1; Tanh])
          (sequential_forward [Dropout p true; Linear (e + l) e W2 b2; Tanh])
          e /\
    (length W1 = e /\ length b1 = e) /\ (length W2 = e /\ length b2 = e).
Proof.
  intros Hc.
  destruct (ComplExLiteralCombination_run e l p g)
    as (W1 & b1 & W2 & b2 & g0 & Hrun & [[HW1 _] Hb1] & [[HW2 _] Hb2]).
  rewrite Hrun in Hc. cbn [fst] in Hc.
  destruct (valid_probability p); [|discriminate].
  injection Hc as <-.
  split; [reflexivity|].
  exists W1, b1, W2, b2. repeat split; assumption.
Qed.

(** X7.  [ComplExLiteralCombination] maps an input whose last dimension is
    2 * embedding_dim + num_of_literals to an output with as many rows whose
    last dimension is 2 * embedding_dim, for every dropout probability it
    was built with and every state of the generator. *)
Theorem complex_literal_shape (e l : nat) (p : F) (g g' : Generator F)
        (c : ComplexCombination F) (x : Mat F) :
  fst (ComplExLiteralCombination e l p g) = Ok c ->
  last_dim (2 * e + l) x ->
  exists y, fst (forward c x g') = Ok y /\ shape2 (length x) (2 * e) y.
Proof.
  intros Hc Hx.
  destruct (@constructed_layers e l p g c Hc)
    as (Hp & W1 & b1 & W2 & b2 & -> & [HW1 Hb1] & [HW2 Hb2]).
  rewrite forward_split with (L := l) by exact Hx.
  destruct (@halves_shape e l x Hx) as [Hre Him].
  destruct (@tanh_layers_run e l (length x) p W1 b1 _ g' Hp Hre HW1 Hb1)
    as (re & Hrun1 & Hsre).
  unfold bind at 1. rewrite Hrun1.
  destruct (@tanh_layers_run e l (length x) p W2 b2 _
              (snd (dropout_forward p true
                      (map (fun r => real_half e r ++ literals e r) x) g'))
              Hp Him HW2 Hb2)
    as (im & Hrun2 & Hsim).
  unfold bind at 1. rewrite Hrun2.
  destruct (@cat_last_shape (length x) e e re im Hsre Hsim) as [Hcat Hshape].
  unfold lift. rewrite Hcat.
  eexists. split; [reflexivity|].
  replace (2 * e) with (e + e) by lia. exact Hshape.
Qed.


Lemma linear_rows_reject (i : nat) (W : Mat F) (b : Vec F)
      (r : Vec F) (x : Mat F) :
  length r <> i -> mapR (linear_row i W b) (r :: x) = Raise RuntimeError.
Proof.
  intros Hr. cbn [mapR]. unfold linear_row at 1.
  apply Nat.eqb_neq in Hr. rewrite Hr. reflexivity.
Qed.

(** X8.  [DistMultCombination] rejects an input of the wrong width: on a
    non-empty input whose last dimension is not
    embedding_dim + num_of_literals the linear layer raises [RuntimeError]
    before the dropout draws anything. *)
Theorem distmult_rejects_width (e l k : nat) (p : F) (g g' : Generator F)
        (m : Sequential F) (x : Mat F) :
  fst (DistMultCombination e l p g) = Ok m ->
  x <> [] ->
  last_dim k x ->
  k <> e + l ->
  sequential_forward m x g' = (Raise RuntimeError, g').
Proof.
  intros Hm Hne Hx Hk.
  destruct (DistMultCombination_run e l p g) as (W & b & g0 & Hrun & _).
  rewrite Hrun in Hm. cbn [fst] in Hm.
  destruct (valid_probability p); [|discriminate].
  injection Hm as <-.
  destruct x as [|r x]; [congruence|].
  apply Forall_cons_iff in Hx. destruct Hx as [Hr _].
  cbn [sequential_forward layer_forward]. unfold bind at 1, lift.
  rewrite linear_rows_reject by congruence. reflexivity.
Qed.

Lemma short_row_width (e l k : nat) :
  k <> 2 * e + l ->
  Nat.min (Nat.min (2 * e) k / 2) (Nat.min (2 * e) k) + (k - 2 * e) <> e + l.
Proof.
  intros Hk.
  rewrite (Nat.min_l (Nat.min (2 * e) k / 2))
    by (apply Nat.Div0.div_le_upper_bound; lia).
  destruct (Nat.le_gt_cases (2 * e) k) as [Hle|Hlt].
  - rewrite Nat.min_l by exact Hle.
    replace (2 * e / 2) with e by (rewrite Nat.mul_comm, Nat.div_mul; lia).
    lia.
  - rewrite Nat.min_r by lia.
    assert (k / 2 < e) by (apply Nat.Div0.div_lt_upper_bound; lia).
    lia.
Qed.

(** X9.  [ComplExLiteralCombination] rejects an input of the wrong width.
    On a non-empty input whose last dimension is not
    2 * embedding_dim + num_of_literals, shorter inputs included, the
    slices, the split and the concatenation with the literals do not raise;
    the dropout of the real sub-module returns; the linear layer of the real
    sub-module raises [RuntimeError] on what the dropout returned; and the
    forward pass raises that error in the generator state the real dropout
    left, so the imaginary sub-module is never run. *)
Theorem complex_literal_rejects_width (e l k : nat) (p : F)
        (g g' : Generator F) (c : ComplexCombination F) (x : Mat F) :
  fst (ComplExLiteralCombination e l p g) = Ok c ->
  x <> [] ->
  last_dim k x ->
  k <> 2 * e + l ->
  exists W_re b_re W_im b_im re_in y g1,
    c = ComplexCombination_init
          (sequential_forward
             [Dropout p true; Linear (e + l) e W_re b_re; Tanh])
          (sequential_forward
             [Dropout p true; Linear (e + l) e W_im b_im; Tanh])
          e /\
    cat_last (fst (split_complex (narrow_to (2 * e) x)))
             (narrow_from (2 * e) x) = Ok re_in /\
    layer_forward (Dropout p true) re_in g' = (Ok y, g1) /\
    layer_forward (Linear (e + l) e W_re b_re) y g1 =
      (Raise RuntimeError, g1) /\
    forward c x g' = (Raise RuntimeError, g1).
Proof.
  intros Hc Hne Hx Hk.
  destruct (@constructed_layers e l p g c Hc)
    as (Hp & W1 & b1 & W2 & b2 & -> & _).
  exists W1, b1, W2, b2.
  destruct x as [|r x]; [congruence|].
  apply Forall_cons_iff in Hx. destruct Hx as [Hr _].
  unfold forward, ComplexCombination_init, split_complex, narrow_to,
    narrow_from.
  cbn [embedding_dim Combinations.real Combinations.imag fst].
  rewrite !map_map, !cat_last_map.
  eexists.
  cbn [layer_forward].
  set (re_in := map (fun r0 : list F =>
                 firstn (length (firstn (2 * e) r0) / 2) (firstn (2 * e) r0) ++
                 skipn (2 * e) r0) (r :: x)).
  destruct (@dropout_forward_rows p true re_in g' Hp)
    as (y0 & g1 & Hrun & Hrows).
  exists y0, g1.
  split; [reflexivity|]. split; [reflexivity|]. split; [exact Hrun|].
  subst re_in. cbn [map] in Hrows.
  destruct y0 as [|r' y']; [inversion Hrows|].
  apply Forall2_cons_iff in Hrows. destruct Hrows as [Hlen _].
  assert (Hbad : mapR (linear_row (e + l) W1 b1) (r' :: y') =
                 Raise RuntimeError).
  { apply linear_rows_reject.
    rewrite Hlen, length_app, length_firstn, length_skipn, length_firstn, Hr.
    apply short_row_width. exact Hk. }
  split.
  - unfold lift. rewrite Hbad. reflexivity.
  - unfold bind at 1, lift at 1.
    cbn [sequential_forward layer_forward]. unfold bind at 1.
    unfold bind at 1. rewrite Hrun.
    unfold bind at 1, lift at 1. rewrite Hbad. reflexivity.
Qed.

(** X10.  A dropout probability below 0 or above 1 makes both constructors
    raise [ValueError].  [DistMultCombination] builds its linear layer
    first: when it raises, the generator has made the
    embedding_dim * (embedding_dim + num_of_literals) + embedding_dim draws
    of that layer.  [ComplExLiteralCombination] builds a dropout first:
    when it raises, the generator has made no draw. *)
Theorem invalid_dropout_probability (e l : nat) (p : F) (g : Generator F) :
  fltb p fzero = true \/ fltb fone p = true ->
  DistMultCombination e l p g =
    (Raise ValueError, advance e (advance (e * (e + l)) g)) /\
  ComplExLiteralCombination e l p g = (Raise ValueError, g).
Proof.
  intros Hp.
  assert (Hv : valid_probability p = false).
  { unfold valid_probability. destruct Hp as [-> | ->];
      rewrite ?orb_true_r; reflexivity. }
  split.
  - destruct (nn_Linear_run (e + l) e g) as (W & b & Hlin & _).
    unfold DistMultCombination, bind. rewrite Hlin, nn_Dropout_run, Hv.
    reflexivity.
  - unfold ComplExLiteralCombination, bind at 1.
    rewrite nn_Dropout_run, Hv. reflexivity.
Qed.


Lemma dropout_rows_generator (p : F) (z z' : Mat F) (g : Generator F) :
  same_shape z z' ->
  snd (mapS (dropout_row p) z g) = snd (mapS (dropout_row p) z' g).
Proof.
  intros Hs. revert g.
  induction Hs as [|r r' z z' Hr Hs IH]; intros g; [reflexivity|].
  cbn [mapS]. unfold bind at 1 3.
  unfold dropout_row at 1 3, bind at 1 3, draw_mask, ret at 1 3.
  rewrite <- Hr.
  specialize (IH (advance (length r) g)).
  destruct (dropout_rows p z (advance (length r) g)) as (y & g1 & Hrun & _).
  destruct (dropout_rows p z' (advance (length r) g)) as (y' & g1' & Hrun' & _).
  unfold bind at 1 2. rewrite Hrun, Hrun' in *. exact IH.
Qed.

Lemma dropout_forward_generator (p : F) (training : bool) (z z' : Mat F)
      (g : Generator F) :
  same_shape z z' ->
  snd (dropout_forward p training z g) = snd (dropout_forward p training z' g).
Proof.
  intros Hs. unfold dropout_forward.
  destruct (valid_probability p); [|reflexivity].
  destruct (feqb p fzero || negb training); [reflexivity|].
  destruct (feqb p fone); [reflexivity|].
  apply dropout_rows_generator. exact Hs.
Qed.

Lemma shape2_same_shape (n d : nat) (a b : Mat F) :
  shape2 n d a -> shape2 n d b -> same_shape a b.
Proof.
  intros [Hna Ha] [Hnb Hb]. subst n. unfold same_shape.
  revert b Hnb Hb. induction a as [|r a IH]; intros [|r' b] Hnb Hb;
    try discriminate; constructor.
  - apply Forall_cons_iff in Ha. apply Forall_cons_iff in Hb.
    destruct Ha as [-> _]. destruct Hb as [-> _]. reflexivity.
  - apply Forall_cons_iff in Ha. apply Forall_cons_iff in Hb.
    apply IH; [apply Ha|injection Hnb; auto|apply Hb].
Qed.

Lemma map_app_agree {A B} (f k : A -> list B) (x x' : list A) :
  map f x = map f x' -> map k x = map k x' ->
  map (fun r => f r ++ k r) x = map (fun r => f r ++ k r) x'.
Proof.
  revert x'. induction x as [|r x IH]; intros [|r' x'] Hf Hk;
    try discriminate; [reflexivity|].
  cbn in *. injection Hf as Hf1 Hf2. injection Hk as Hk1 Hk2.
  rewrite Hf1, Hk1. f_equal. apply IH; assumption.
Qed.

Lemma split_recombined (n e : nat) (re im : Mat F) :
  shape2 n e re -> shape2 n e im ->
  map (real_half e) (map2 (@app F) re im) = re /\
  map (imag_half e) (map2 (@app F) re im) = im.
Proof.
  intros [Hnr Hr] [Hni Hi]. subst n. revert im Hni Hi.
  induction re as [|a re IH]; intros [|b im] Hni Hi; try discriminate.
  - split; reflexivity.
  - apply Forall_cons_iff in Hr. destruct Hr as [Ha Hr].
    apply Forall_cons_iff in Hi. destruct Hi as [Hb Hi].
    injection Hni as Hni.
    destruct (IH Hr im Hni Hi) as [IHr IHi].
    cbn [map2 map]. rewrite IHr, IHi.
    unfold real_half, imag_half. split; f_equal.
    + rewrite firstn_app, Ha, Nat.sub_diag, firstn_O, app_nil_r.
      apply firstn_all2. lia.
    + rewrite skipn_app, Ha, Nat.sub_diag, skipn_O.
      rewrite (skipn_all2 a) by lia. cbn [app].
      apply firstn_all2. lia.
Qed.

(** X11.  [ComplExLiteralCombination] never mixes the two halves: for two
    inputs of the right width with the same literals, run from the same
    generator state, equal real halves give outputs with equal real halves
    whatever the imaginary halves are, and equal imaginary halves give
    outputs with equal imaginary halves whatever the real halves are. *)
Theorem halves_do_not_mix (e l : nat) (p : F) (g g' : Generator F)
        (c : ComplexCombination F) (x x' : Mat F) :
  fst (ComplExLiteralCombination e l p g) = Ok c ->
  last_dim (2 * e + l) x ->
  last_dim (2 * e + l) x' ->
  length x = length x' ->
  map (literals e) x = map (literals e) x' ->
  exists y y',
    fst (forward c x g') = Ok y /\
    fst (forward c x' g') = Ok y' /\
    (map (real_half e) x = map (real_half e) x' ->
     map (real_half e) y = map (real_half e) y') /\
    (map (imag_half e) x = map (imag_half e) x' ->
     map (imag_half e) y = map (imag_half e) y').
Proof.
  intros Hc Hx Hx' Hn Hlit.
  destruct (@constructed_layers e l p g c Hc)
    as (Hp & W1 & b1 & W2 & b2 & -> & [HW1 Hb1] & [HW2 Hb2]).
  rewrite !forward_split with (L := l) by assumption.
  destruct (@halves_shape e l x Hx) as [Hre Him].
  destruct (@halves_shape e l x' Hx') as [Hre' Him'].
  rewrite <- Hn in Hre', Him'.
  assert (Hgen :
    snd (dropout_forward p true
           (map (fun r => real_half e r ++ literals e r) x) g') =
    snd (dropout_forward p true
           (map (fun r => real_half e r ++ literals e r) x') g')).
  { apply dropout_forward_generator.
    eapply shape2_same_shape; eassumption. }
  destruct (@tanh_layers_run e l (length x) p W1 b1 _ g' Hp Hre HW1 Hb1)
    as (re & Hrun1 & Hsre).
  destruct (@tanh_layers_run e l (length x) p W1 b1 _ g' Hp Hre' HW1 Hb1)
    as (re' & Hrun1' & Hsre').
  destruct (@tanh_layers_run e l (length x) p W2 b2 _
              (snd (dropout_forward p true
                      (map (fun r => real_half e r ++ literals e r) x) g'))
              Hp Him HW2 Hb2)
    as (im & Hrun2 & Hsim).
  destruct (@tanh_layers_run e l (length x) p W2 b2 _
              (snd (dropout_forward p true
                      (map (fun r => real_half e r ++ literals e r) x) g'))
              Hp Him' HW2 Hb2)
    as (im' & Hrun2' & Hsim').
  unfold bind at 1 3. rewrite Hrun1, Hrun1', <- Hgen.
  unfold bind at 1 2. rewrite Hrun2, Hrun2'.
  destruct (@cat_last_shape (length x) e e re im Hsre Hsim) as [Hcat _].
  destruct (@cat_last_shape (length x) e e re' im' Hsre' Hsim') as [Hcat' _].
  unfold lift. rewrite Hcat, Hcat'.
  do 2 eexists. split; [reflexivity|]. split; [reflexivity|].
  destruct (@split_recombined (length x) e re im Hsre Hsim) as [Sr Si].
  destruct (@split_recombined (length x) e re' im' Hsre' Hsim') as [Sr' Si'].
  rewrite Sr, Sr', Si, Si'.
  split; intros Hhalf.
  - rewrite (map_app_agree _ _ _ _ Hhalf Hlit) in Hrun1. congruence.
  - rewrite (map_app_agree _ _ _ _ Hhalf Hlit) in Hrun2. congruence.
Qed.

End Shapes.
End CombinationsMore.

(* ================================================================== *)
(** * The further facts on concrete models *)
(* ================================================================== *)

Module MoreWitnesses.
Import SimplE SimplEFacts Combinations CombinationsFacts Batches Rational
       Samples SimplEMore CombinationsMore.

Ltac holds_tables :=
  unfold initialised; do 4 eexists; repeat split; repeat constructor.

Ltac has_last_dim := unfold last_dim; repeat constructor.

Lemma invalid_batches_raise_witness :
  initialised toy /\
  size1 {| size1 := 3; rows := [[-1; 0; 0]]%Z |} = 3 /\
  forward_cwa {| size1 := 2; rows := [[0; 5]]%Z |} toy_world =
    (Raise IndexError, toy_world) /\
  forward_inverse_cwa {| size1 := 1; rows := [[0]]%Z |} toy_world =
    (Raise IndexError, toy_world) /\
  forward_owa {| size1 := 3; rows := [[-1; 0; 0]]%Z |} toy_world =
    (Raise IndexError, toy_world).
Proof.
  assert (Hi : initialised toy) by holds_tables.
  split; [exact Hi|]. split; [reflexivity|].
  apply (@invalid_batches_raise Q Q_scalar toy_world
           {| size1 := 2; rows := [[0; 5]]%Z |}
           {| size1 := 1; rows := [[0]]%Z |}
           {| size1 := 3; rows := [[-1; 0; 0]]%Z |} Hi).
  - intros (_ & _ & Hc). apply relation_columnb_spec in Hc.
    vm_compute in Hc. discriminate Hc.
  - intros (Hlt & _). cbn in Hlt. lia.
  - reflexivity.
  - intros (Hc & _). apply entity_columnb_spec in Hc.
    vm_compute in Hc. discriminate Hc.
Defined.

Lemma cwa_modes_agree_witness :
  initialised toy /\ head_relation_batch toy pairs /\
  relation_tail_batch toy pairs /\
  exists by_tail by_head x,
    fst (forward_cwa pairs toy_world) = Ok by_tail /\
    fst (forward_inverse_cwa pairs toy_world) = Ok by_head /\
    entry by_tail 0 0 = Some x /\ entry by_head 1 0 = Some x.
Proof.
  assert (Hi : initialised toy) by holds_tables.
  assert (Hh : head_relation_batch toy pairs)
    by (apply head_relation_batch_ok; split; reflexivity).
  assert (Ht : relation_tail_batch toy pairs)
    by (apply relation_tail_batch_ok; split; reflexivity).
  split; [exact Hi|]. split; [exact Hh|]. split; [exact Ht|].
  exact (@cwa_modes_agree Q Q_scalar toy_world pairs pairs 0 1 0%Z 1%Z 0%Z
           Hi Hh Ht eq_refl eq_refl).
Defined.

Lemma true_triple_entries_witness :
  initialised toy /\ triples_batch toy triples /\
  exists scores by_tail by_head,
    fst (forward_owa triples toy_world) = Ok scores /\
    fst (forward_cwa triples toy_world) = Ok by_tail /\
    fst (forward_inverse_cwa (columns_from 1 triples) toy_world) = Ok by_head /\
    forall i row,
      nth_error (rows triples) i = Some row ->
      exists x,
        nth_error scores i = Some x /\
        entry by_tail i (Z.to_nat (nth 2 row 0%Z)) = Some x /\
        entry by_head i (Z.to_nat (nth 0 row 0%Z)) = Some x.
Proof.
  assert (Hi : initialised toy) by holds_tables.
  assert (Hb : triples_batch toy triples)
    by (apply triples_batch_ok; split; reflexivity).
  split; [exact Hi|]. split; [exact Hb|].
  exact (@true_triple_entries Q Q_scalar toy_world triples Hi Hb).
Defined.

Lemma stacked_batches_witness :
  initialised toy /\ size1 triples = size1 triples /\
  fst (forward_owa (stack triples triples) toy_world) =
  Ok [(21 # 2)%Q; (14 # 2)%Q; (21 # 2)%Q; (14 # 2)%Q].
Proof.
  assert (Hi : initialised toy) by holds_tables.
  split; [exact Hi|]. split; [reflexivity|].
  exact (proj1 (@stacked_batches Q Q_scalar toy_world triples triples
                  Hi eq_refl)).
Defined.

Lemma inverse_triple_symmetry_witness :
  (forall x y : Q, fadd x y = fadd y x) /\
  initialised toy /\ triples_batch toy triples /\
  fst (forward_owa (reverse_triples triples)
         {| self := swap_relations toy; generator := gen 0 |}) =
  fst (forward_owa triples toy_world).
Proof.
  assert (Hc : forall x y : Q, fadd x y = fadd y x).
  { intros [a b] [c d]. cbn. unfold Qplus. cbn.
    f_equal; [lia|apply Pos.mul_comm]. }
  assert (Hi : initialised toy) by holds_tables.
  assert (Hb : triples_batch toy triples)
    by (apply triples_batch_ok; split; reflexivity).
  split; [exact Hc|]. split; [exact Hi|]. split; [exact Hb|].
  exact (@inverse_triple_symmetry Q Q_scalar toy_world triples Hc Hi Hb).
Defined.

Lemma constructed_model_scores_witness :
  fst (__init__ small_factory 1 (gen 0)) = Ok small_model /\
  triples_batch small_model {| size1 := 3; rows := [[0; 0; 1]]%Z |} /\
  head_relation_batch small_model {| size1 := 2; rows := [[1; 0]]%Z |} /\
  relation_tail_batch small_model {| size1 := 2; rows := [[0; 1]]%Z |} /\
  forall batch e,
    fst (forward_owa batch {| self := small_model; generator := gen 3 |})
    = Raise e \/
    fst (forward_cwa batch {| self := small_model; generator := gen 3 |})
    = Raise e \/
    fst (forward_inverse_cwa batch
           {| self := small_model; generator := gen 3 |}) = Raise e ->
    e = IndexError.
Proof.
  assert (Hs : fst (__init__ small_factory 1 (gen 0)) = Ok small_model)
    by reflexivity.
  assert (H3 : triples_batch small_model
                 {| size1 := 3; rows := [[0; 0; 1]]%Z |})
    by (apply triples_batch_ok; split; reflexivity).
  assert (Hh : head_relation_batch small_model
                 {| size1 := 2; rows := [[1; 0]]%Z |})
    by (apply head_relation_batch_ok; split; reflexivity).
  assert (Ht : relation_tail_batch small_model
                 {| size1 := 2; rows := [[0; 1]]%Z |})
    by (apply relation_tail_batch_ok; split; reflexivity).
  split; [exact Hs|]. split; [exact H3|]. split; [exact Hh|].
  split; [exact Ht|].
  exact (proj2 (@constructed_model_scores Q Q_scalar small_factory 1
                  (gen 0) (gen 3) small_model _ _ _ Hs H3 Hh Ht)).
Defined.

Lemma complex_literal_shape_witness :
  fst (ComplExLiteralCombination 1 1 (1 # 2)%Q (gen 0)) =
  Ok (complex_literal (1 # 2)%Q) /\
  last_dim 3 [[1; 2; 3]; [4; 5; 6]]%Q /\
  exists y,
    fst (forward (complex_literal (1 # 2)%Q) [[1; 2; 3]; [4; 5; 6]]%Q (gen 4))
    = Ok y /\ shape2 2 2 y.
Proof.
  assert (Hc : fst (ComplExLiteralCombination 1 1 (1 # 2)%Q (gen 0)) =
               Ok (complex_literal (1 # 2)%Q)) by reflexivity.
  assert (Hx : last_dim (2 * 1 + 1) [[1; 2; 3]; [4; 5; 6]]%Q)
    by has_last_dim.
  split; [exact Hc|]. split; [exact Hx|].
  exact (@complex_literal_shape Q Q_scalar 1 1 (1 # 2)%Q (gen 0) (gen 4)
           _ [[1; 2; 3]; [4; 5; 6]]%Q Hc Hx).
Defined.

Lemma distmult_rejects_width_witness :
  fst (DistMultCombination 2 1 (1 # 2)%Q (gen 0)) = Ok distmult /\
  [[1; 2]]%Q <> [] /\ last_dim 2 [[1; 2]]%Q /\ 2 <> 2 + 1 /\
  sequential_forward distmult [[1; 2]]%Q (gen 4) =
  (Raise RuntimeError, gen 4).
Proof.
  assert (Hm : fst (DistMultCombination 2 1 (1 # 2)%Q (gen 0)) = Ok distmult)
    by reflexivity.
  assert (Hne : [[1; 2]]%Q <> []) by discriminate.
  assert (Hx : last_dim 2 [[1; 2]]%Q) by has_last_dim.
  assert (Hk : 2 <> 2 + 1) by lia.
  split; [exact Hm|]. split; [exact Hne|]. split; [exact Hx|].
  split; [exact Hk|].
  exact (@distmult_rejects_width Q Q_scalar 2 1 2 (1 # 2)%Q (gen 0) (gen 4)
           distmult [[1; 2]]%Q Hm Hne Hx Hk).
Defined.

Lemma complex_literal_rejects_width_witness :
  fst (ComplExLiteralCombination 1 1 (1 # 2)%Q (gen 0)) =
  Ok (complex_literal (1 # 2)%Q) /\
  [[1; 2]]%Q <> [] /\ last_dim 2 [[1; 2]]%Q /\ 2 <> 2 * 1 + 1 /\
  exists W_re b_re W_im b_im re_in y g1,
    complex_literal (1 # 2)%Q =
    ComplexCombination_init
      (sequential_forward
         [Dropout (1 # 2)%Q true; Linear (1 + 1) 1 W_re b_re; Tanh])
      (sequential_forward
         [Dropout (1 # 2)%Q true; Linear (1 + 1) 1 W_im b_im; Tanh])
      1 /\
    cat_last (fst (split_complex (narrow_to (2 * 1) [[1; 2]]%Q)))
             (narrow_from (2 * 1) [[1; 2]]%Q) = Ok re_in /\
    layer_forward (Dropout (1 # 2)%Q true) re_in (gen 4) = (Ok y, g1) /\
    layer_forward (Linear (1 + 1) 1 W_re b_re) y g1 =
      (Raise RuntimeError, g1) /\
    forward (complex_literal (1 # 2)%Q) [[1; 2]]%Q (gen 4) =
      (Raise RuntimeError, g1).
Proof.
  assert (Hc : fst (ComplExLiteralCombination 1 1 (1 # 2)%Q (gen 0)) =
               Ok (complex_literal (1 # 2)%Q)) by reflexivity.
  assert (Hne : [[1; 2]]%Q <> []) by discriminate.
  assert (Hx : last_dim 2 [[1; 2]]%Q) by has_last_dim.
  assert (Hk : 2 <> 2 * 1 + 1) by lia.
  split; [exact Hc|]. split; [exact Hne|]. split; [exact Hx|].
  split; [exact Hk|].
  exact (@complex_literal_rejects_width Q Q_scalar 1 1 2 (1 # 2)%Q
           (gen 0) (gen 4) _ [[1; 2]]%Q Hc Hne Hx Hk).
Defined.

Lemma invalid_dropout_probability_witness :
  (fltb 2%Q fzero = true \/ fltb fone 2%Q = true) /\
  DistMultCombination 2 1 2%Q (gen 0) = (Raise ValueError, gen 8) /\
  ComplExLiteralCombination 2 1 2%Q (gen 0) = (Raise ValueError, gen 0).
Proof.
  assert (Hp : fltb 2%Q fzero = true \/ fltb fone 2%Q = true)
    by (right; reflexivity).
  split; [exact Hp|].
  exact (@invalid_dropout_probability Q Q_scalar 2 1 2%Q (gen 0) Hp).
Defined.

Lemma halves_do_not_mix_witness :
  fst (ComplExLiteralCombination 1 1 (1 # 2)%Q (gen 0)) =
  Ok (complex_literal (1 # 2)%Q) /\
  last_dim 3 [[1; 2; 3]]%Q /\ last_dim 3 [[1; 9; 3]]%Q /\
  length [[1; 2; 3]]%Q = length [[1; 9; 3]]%Q /\
  map (literals 1) [[1; 2; 3]]%Q = map (literals 1) [[1; 9; 3]]%Q /\
  exists y y',
    fst (forward (complex_literal (1 # 2)%Q) [[1; 2; 3]]%Q (gen 4)) = Ok y /\
    fst (forward (complex_literal (1 # 2)%Q) [[1; 9; 3]]%Q (gen 4)) = Ok y' /\
    (map (real_half 1) [[1; 2; 3]]%Q = map (real_half 1) [[1; 9; 3]]%Q ->
     map (real_half 1) y = map (real_half 1) y') /\
    (map (imag_half 1) [[1; 2; 3]]%Q = map (imag_half 1) [[1; 9; 3]]%Q ->
     map (imag_half 1) y = map (imag_half 1) y').
Proof.
  assert (Hc : fst (ComplExLiteralCombination 1 1 (1 # 2)%Q (gen 0)) =
               Ok (complex_literal (1 # 2)%Q)) by reflexivity.
  assert (Hx : last_dim (2 * 1 + 1) [[1; 2; 3]]%Q) by has_last_dim.
  assert (Hx' : last_dim (2 * 1 + 1) [[1; 9; 3]]%Q) by has_last_dim.
  split; [exact Hc|]. split; [exact Hx|]. split; [exact Hx'|].
  split; [reflexivity|]. split; [reflexivity|].
  exact (@halves_do_not_mix Q Q_scalar 1 1 (1 # 2)%Q (gen 0) (gen 4)
           _ [[1; 2; 3]]%Q [[1; 9; 3]]%Q Hc Hx Hx' eq_refl eq_refl).
Defined.

End MoreWitnesses.
